(** * Parameter-store client ([pstore]) and lambda naming ([sls])

  A shallow embedding of the Go sources:
  - [src/unnamed/part_000] (package [pstore]): [Client] with [Param],
    [Path], [Collect], [Delete], [Put], [EnsurePathPrefix] and
    [handleAPIError];
  - [src/lambda.go] (package [sls]): [LambdaTrigger] and [ToLambdaTrigger].

  Go values are modelled as follows.  A [string] is a Rocq [string] (a
  sequence of bytes); a pointer that may be [nil] is an [option]; a Go
  [map[string]string] is a [gmap string string]; a variadic [...bool] is a
  [list bool]; a Go [error] that may be [nil] is an [option error].  The
  [context.Context] argument only carries cancellation and is left out.
  Calls to the remote API thread the state of the remote explicitly and
  are recorded in a log of requests.  The pagination loop of [Path] takes
  a bound on the number of pages that it fetches. *)

From Stdlib Require Import String Ascii List Bool.
From stdpp Require Import base option list gmap strings.

Local Open Scope string_scope.
Local Open Scope list_scope.

(* ===================================================================== *)
(** ** Package [ssm]: requests, responses and errors of the remote API *)
(* ===================================================================== *)

Module ssm.

(** Errors returned by the remote API.  [ParameterNotFound] is the type
    [types.ParameterNotFound] that [handleAPIError] looks for with
    [errors.As]; [OperationError] is a wrapper that unwraps to the error
    it carries; [APIFault] stands for every other service or transport
    failure. *)
Inductive api_error : Set :=
| ParameterNotFound (message : string)
| APIFault (code message : string)
| OperationError (operation : string) (err : api_error).

(** [errors.As(err, &pne)] with [pne : *types.ParameterNotFound]: walks
    the chain of wrapped errors. *)
Fixpoint As_ParameterNotFound (e : api_error) : bool :=
  match e with
  | ParameterNotFound _ => true
  | APIFault _ _ => false
  | OperationError _ e' => As_ParameterNotFound e'
  end.

(** [types.Parameter]: the two fields the client reads. *)
Record SSMParameter : Set := mkSSMParameter {
  p_Name : option string;
  p_Value : option string
}.

Inductive ParameterType : Set := ParameterTypeString.
Inductive ParameterTier : Set := ParameterTierStandard.

Record GetParameterInput : Set := mkGetParameterInput {
  GetParameterInput_Name : option string;
  GetParameterInput_WithDecryption : bool
}.

Record GetParameterOutput : Set := mkGetParameterOutput {
  GetParameterOutput_Parameter : option SSMParameter
}.

Record GetParametersInput : Set := mkGetParametersInput {
  GetParametersInput_Names : list string;
  GetParametersInput_WithDecryption : bool
}.

Record GetParametersOutput : Set := mkGetParametersOutput {
  GetParametersOutput_Parameters : list SSMParameter;
  GetParametersOutput_InvalidParameters : list string
}.

Record GetParametersByPathInput : Set := mkGetParametersByPathInput {
  GetParametersByPathInput_Path : option string;
  GetParametersByPathInput_WithDecryption : bool;
  GetParametersByPathInput_Recursive : bool;
  GetParametersByPathInput_NextToken : option string
}.

Record GetParametersByPathOutput : Set := mkGetParametersByPathOutput {
  GetParametersByPathOutput_Parameters : list SSMParameter;
  GetParametersByPathOutput_NextToken : option string
}.

Record DeleteParameterInput : Set := mkDeleteParameterInput {
  DeleteParameterInput_Name : option string
}.

Record DeleteParameterOutput : Set := mkDeleteParameterOutput { }.

Record PutParameterInput : Set := mkPutParameterInput {
  PutParameterInput_Name : option string;
  PutParameterInput_Type : ParameterType;
  PutParameterInput_Value : option string;
  PutParameterInput_Overwrite : bool;
  PutParameterInput_Tier : ParameterTier
}.

Record PutParameterOutput : Set := mkPutParameterOutput { }.

(** What a Go call [(out *O, err error)] to the API gives back: an error,
    or an output pointer, which may itself be [nil]. *)
Definition reply (O : Type) : Type := (api_error + option O)%type.

(** The requests a client can send, as recorded in the log of calls. *)
Inductive Request : Set :=
| ReqGetParameter (i : GetParameterInput)
| ReqGetParameters (i : GetParametersInput)
| ReqGetParametersByPath (i : GetParametersByPathInput)
| ReqDeleteParameter (i : DeleteParameterInput)
| ReqPutParameter (i : PutParameterInput).

(** The hierarchy that a request for a page asks for. *)
Definition request_path (q : Request) : option string :=
  match q with
  | ReqGetParametersByPath i => GetParametersByPathInput_Path i
  | _ => None
  end.

End ssm.

(* ===================================================================== *)
(** ** Package [failure]: classified errors *)
(* ===================================================================== *)

Module failure.
Import ssm.

(** Modelled from the spec: package [github.com/rsb/failure] is imported
    by the sources but is not part of them.  Its errors carry a class
    (spec section 7: InvalidInput, NotFound, Conflict, System), the
    original error as context, and a message.  The sources use
    [failure.System], [failure.ToSystem], [failure.ToNotFound],
    [failure.Wrap] and [failure.IsNotFound]. *)
Inductive Category : Set :=
| CInvalidInput
| CNotFound
| CConflict
| CSystem.

#[global] Instance Category_eq_dec : EqDecision Category.
Proof. solve_decision. Defined.

(** A Go [error] value as the client sees it: an error of the remote API;
    a plain error with a message ([errors.New]); an error made by package
    [failure] with a class and a message; an error converted by package
    [failure] to a class, which keeps the original error as context; or
    an error to which [failure.Wrap] added one more message. *)
Inductive error : Set :=
| Remote (e : api_error)
| ErrorString (msg : string)
| New (class : Category) (msg : string)
| Convert (class : Category) (cause : error) (msg : string)
| Wrapped (e : error) (msg : string).

(** [failure.System(msg)] *)
Definition System (msg : string) : error := New CSystem msg.

(** [failure.ToSystem(e, msg)] *)
Definition ToSystem (e : error) (msg : string) : error :=
  Convert CSystem e msg.

(** [failure.ToNotFound(e, msg)] *)
Definition ToNotFound (e : error) (msg : string) : error :=
  Convert CNotFound e msg.

(** [failure.Wrap(e, msg)]: adds a message and keeps the class. *)
Definition Wrap (e : error) (msg : string) : error := Wrapped e msg.

(** The class of an error, if package [failure] gave it one. *)
Fixpoint class_of (e : error) : option Category :=
  match e with
  | Remote _ => None
  | ErrorString _ => None
  | New c _ => Some c
  | Convert c _ _ => Some c
  | Wrapped e' _ => class_of e'
  end.

(** [err == nil] *)
Definition is_nil (err : option error) : bool :=
  match err with
  | None => true
  | Some _ => false
  end.

(** [failure.IsNotFound(err)]; [err] may be [nil]. *)
Definition IsNotFound (err : option error) : bool :=
  match err with
  | Some e => bool_decide (class_of e = Some CNotFound)
  | None => false
  end.

(** [errors.As(err, &pne)] with [pne : *types.ParameterNotFound], on a Go
    [error]. *)
Fixpoint errors_As_ParameterNotFound (e : error) : bool :=
  match e with
  | Remote a => As_ParameterNotFound a
  | ErrorString _ => false
  | New _ _ => false
  | Convert _ _ _ => false
  | Wrapped e' _ => errors_As_ParameterNotFound e'
  end.

End failure.

(* ===================================================================== *)
(** ** Package [pstore]: the parameter-store client *)
(* ===================================================================== *)

Module pstore.
Import ssm failure.

(** How a call of a client method ends: it returns its Go results, it
    panics, or (for the pagination loop only) the bound on the number of
    iterations that the model explores is reached. *)
Inductive outcome (A : Type) : Type :=
| Returned (a : A)
| Panicked (msg : string)
| OutOfFuel.

Arguments Returned {A} a.
Arguments Panicked {A} msg.
Arguments OutOfFuel {A}.

(** The runtime panic of Go on a field access through a [nil] pointer. *)
Definition nil_dereference : string :=
  "runtime error: invalid memory address or nil pointer dereference".

Section WithRemote.

(** The state of the remote service behind the API. *)
Variable R : Type.

(** [type AdapterAPI interface]: the five operations of the remote.  Each
    takes the request and the state of the remote, and gives the reply and
    the next state of the remote. *)
Record AdapterAPI : Type := mkAdapterAPI {
  GetParameter :
    GetParameterInput -> R -> reply GetParameterOutput * R;
  GetParameters :
    GetParametersInput -> R -> reply GetParametersOutput * R;
  GetParametersByPath :
    GetParametersByPathInput -> R -> reply GetParametersByPathOutput * R;
  DeleteParameter :
    DeleteParameterInput -> R -> reply DeleteParameterOutput * R;
  PutParameter :
    PutParameterInput -> R -> reply PutParameterOutput * R
}.

(** [type Client struct] *)
Record Client : Type := mkClient {
  api : AdapterAPI;
  isEncrypted : bool
}.

(** [NewClient]; a [nil] api is [None]. *)
Definition NewClient (a : option AdapterAPI) (isEncrypted : bool)
  : option Client * option error :=
  match a with
  | None =>
      (None,
       Some (System "api is nil, an initialized ssmiface.SSMAPI is required"))
  | Some a => (Some (mkClient a isEncrypted), None)
  end.

Definition IsEncrypted (c : Client) : bool := isEncrypted c.

(** What a call runs in: the state of the remote and the requests sent to
    it so far, oldest first. *)
Record world : Type := mkWorld {
  remote : R;
  calls : list Request
}.

(** Client methods are state transformers on the [world]. *)
Definition M (A : Type) : Type := world -> outcome A * world.

Definition ret {A : Type} (a : A) : M A := fun w => (Returned a, w).

Definition bind {A B : Type} (m : M A) (k : A -> M B) : M B :=
  fun w =>
    match m w with
    | (Returned a, w') => k a w'
    | (Panicked msg, w') => (Panicked msg, w')
    | (OutOfFuel, w') => (OutOfFuel, w')
    end.

Definition panic {A : Type} (msg : string) : M A :=
  fun w => (Panicked msg, w).

Definition out_of_fuel {A : Type} : M A := fun w => (OutOfFuel, w).

(** One request to the remote: logs the request, runs the operation on the
    state of the remote. *)
Definition call {O : Type} (q : Request) (op : R -> reply O * R)
  : M (reply O) :=
  fun w =>
    let '(r, s) := op (remote w) in
    (Returned r, mkWorld s (calls w ++ [q])).

#[export] Instance M_ret : MRet M := @ret.
#[export] Instance M_bind : MBind M := fun A B k m => bind m k.

(** [handleAPIError(err, msg, a...)]; the message comes already formatted. *)
Definition handleAPIError (err : option error) (msg : string)
  : option error :=
  match err with
  | None => None
  | Some err =>
      let result := ToSystem err msg in
      let result :=
        if errors_As_ParameterNotFound err then ToNotFound err msg
        else result in
      Some result
  end.

(** The value that [Param] reads out of a reply without error:
    [if out != nil && out.Parameter != nil && out.Parameter.Value != nil]
    then [*out.Parameter.Value], else the empty string. *)
Definition parameter_value (out : option GetParameterOutput) : string :=
  match out with
  | Some o =>
      match GetParameterOutput_Parameter o with
      | Some p =>
          match p_Value p with
          | Some v => v
          | None => ""
          end
      | None => ""
      end
  | None => ""
  end.

(** The request that [Param] builds. *)
Definition get_input (c : Client) (key : string) : GetParameterInput :=
  mkGetParameterInput (Some key) (IsEncrypted c).

(** [func (c *Client) Param(ctx, key) (string, error)] *)
Definition Param (c : Client) (key : string) : M (string * option error) :=
  let result := "" in
  if String.eqb key "" then
    ret (result, Some (System "key is empty, a non empty key is required"))
  else
    let i := get_input c key in
    r ← call (ReqGetParameter i) (GetParameter (api c) i);
    match r with
    | inl err =>
        ret (result,
             handleAPIError (Some (Remote err))
               ("c.api.GetParameter failed (" ++ key ++ ")"))
    | inr out => ret (parameter_value out, None)
    end.

(** [func (c *Client) EnsurePathPrefix(path string) string] *)
Definition EnsurePathPrefix (c : Client) (path : string) : string :=
  if negb (String.prefix "/" path) then "/" ++ path else path.

(** The loop body shared by [Path] and [Collect]:
    [for _, p := range ps { if p.Name == nil || p.Value == nil { continue };
    result[*p.Name] = *p.Value }]. *)
Definition store_parameters (ps : list SSMParameter)
  (result : gmap string string) : gmap string string :=
  fold_left
    (fun acc p =>
       match p_Name p, p_Value p with
       | Some n, Some v => <[n := v]> acc
       | _, _ => acc
       end)
    ps result.

(** *** The paginator of the SDK

    [ssm.GetParametersByPathPaginator] belongs to the SDK, not to the
    sources; [Path] drives it.  Its state is the request, the token of the
    next page and whether a first page is still to be fetched.  The
    options keep their defaults (no limit, no stop on a duplicate token). *)
Record GetParametersByPathPaginator : Type := mkPaginator {
  pager_params : GetParametersByPathInput;
  pager_nextToken : option string;
  pager_firstPage : bool
}.

(** [ssm.NewGetParametersByPathPaginator(client, params)] *)
Definition NewGetParametersByPathPaginator
  (params : GetParametersByPathInput) : GetParametersByPathPaginator :=
  mkPaginator params (GetParametersByPathInput_NextToken params) true.

(** [HasMorePages]:
    [p.firstPage || (p.nextToken != nil && len( *p.nextToken) != 0)].
    Earlier releases of the SDK test only [p.nextToken != nil]; the two
    differ only when the remote returns an empty token. *)
Definition HasMorePages (p : GetParametersByPathPaginator) : bool :=
  pager_firstPage p
  || match pager_nextToken p with
     | Some t => negb (String.eqb t "")
     | None => false
     end.

(** The request for the next page: [params := *p.params;
    params.NextToken = p.nextToken]. *)
Definition page_request (p : GetParametersByPathPaginator)
  : GetParametersByPathInput :=
  mkGetParametersByPathInput
    (GetParametersByPathInput_Path (pager_params p))
    (GetParametersByPathInput_WithDecryption (pager_params p))
    (GetParametersByPathInput_Recursive (pager_params p))
    (pager_nextToken p).

(** [NextPage]: sends the request with the current token.  On an error of
    the remote it returns [(nil, err)] and keeps its state; otherwise it
    records the token of the reply and returns [(result, nil)]. *)
Definition NextPage (client : AdapterAPI) (p : GetParametersByPathPaginator)
  : M (option GetParametersByPathOutput * option error
       * GetParametersByPathPaginator) :=
  if negb (HasMorePages p) then
    ret (None, Some (ErrorString "no more pages available"), p)
  else
    let params := page_request p in
    r ← call (ReqGetParametersByPath params)
             (GetParametersByPath client params);
    match r with
    | inl err => ret (None, Some (Remote err), p)
    | inr None => panic nil_dereference
    | inr (Some result) =>
        ret (Some result, None,
             mkPaginator (pager_params p)
               (GetParametersByPathOutput_NextToken result) false)
    end.

(** The loop of [Path]: [for pager.HasMorePages() { ... }].  [fuel] bounds
    the number of pages fetched; [errs] is the local slice of collected
    errors. *)
Fixpoint Path_loop (fuel : nat) (c : Client)
  (pager : GetParametersByPathPaginator)
  (result : gmap string string) (errs : list error)
  : M (gmap string string * option error) :=
  if HasMorePages pager then
    match fuel with
    | O => out_of_fuel
    | S fuel' =>
        '(out, err, pager') ← NextPage (api c) pager;
        let errs :=
          match err with
          | Some e => errs ++ [Wrap e "pager.NextPage failed"]
          | None => errs
          end in
        match out with
        | None => panic nil_dereference
        | Some o =>
            Path_loop fuel' c pager'
              (store_parameters (GetParametersByPathOutput_Parameters o)
                 result)
              errs
        end
    end
  else ret (result, None).

(** [func (c *Client) Path(ctx, path, recursive ...bool)
    (map[string]string, error)] *)
Definition Path (fuel : nat) (c : Client) (path : string)
  (recursive : list bool) : M (gmap string string * option error) :=
  let result : gmap string string := ∅ in
  let isRecursive := true in
  if String.eqb path "" then ret (result, Some (System "path is empty"))
  else
    let path := EnsurePathPrefix c path in
    let isRecursive :=
      match recursive with
      | false :: _ => false
      | _ => isRecursive
      end in
    let i :=
      mkGetParametersByPathInput (Some path) (IsEncrypted c) isRecursive
        None in
    let pager := NewGetParametersByPathPaginator i in
    Path_loop fuel c pager result [].

(** [%v] of a [[]string]. *)
Definition format_keys (keys : list string) : string :=
  "[" ++ String.concat " " keys ++ "]".

(** [func (c *Client) Collect(ctx, keys ...string)
    (map[string]string, []string, error)]; a [nil] map is [None]. *)
Definition Collect (c : Client) (keys : list string)
  : M (option (gmap string string) * list string * option error) :=
  if Nat.eqb (length keys) 0 then
    ret (None, [], Some (System "keys must have at least one key"))
  else
    let names := fold_left (fun names k => names ++ [k]) keys [] in
    let i := mkGetParametersInput names (IsEncrypted c) in
    r ← call (ReqGetParameters i) (GetParameters (api c) i);
    match r with
    | inl err =>
        ret (None, [],
             Some (ToSystem (Remote err)
                     ("c.api.GetParametersWithContext failed ("
                      ++ format_keys keys ++ ")")))
    | inr None => panic nil_dereference
    | inr (Some out) =>
        let result : gmap string string := ∅ in
        let result :=
          store_parameters (GetParametersOutput_Parameters out) result in
        let invalid :=
          fold_left
            (fun invalid i =>
               if String.eqb i "" then invalid else invalid ++ [i])
            (GetParametersOutput_InvalidParameters out) [] in
        ret (Some result, invalid, None)
    end.

(** [func (c *Client) Delete(ctx, key) (string, error)] *)
Definition Delete (c : Client) (key : string) : M (string * option error) :=
  '(result, err) ← Param c key;
  match err with
  | Some e => ret (result, Some (Wrap e ("c.Param failed (" ++ key ++ ")")))
  | None =>
      let i := mkDeleteParameterInput (Some key) in
      r ← call (ReqDeleteParameter i) (DeleteParameter (api c) i);
      match r with
      | inl e =>
          ret (result,
               Some (ToSystem (Remote e)
                       ("c.api.DeleteParameter failed (" ++ key ++ ")")))
      | inr _ => ret (result, None)
      end
  end.

(** The request that [Put] builds. *)
Definition put_input (key value : string) (isOverwrite : bool)
  : PutParameterInput :=
  mkPutParameterInput (Some key) ParameterTypeString (Some value)
    isOverwrite ParameterTierStandard.

(** [len(overwrite) > 0 && overwrite[0] == true] *)
Definition first_true (overwrite : list bool) : bool :=
  match overwrite with
  | b :: _ => b
  | [] => false
  end.

(** [func (c *Client) Put(ctx, key, value, overwrite ...bool)
    (string, error)] *)
Definition Put (c : Client) (key value : string) (overwrite : list bool)
  : M (string * option error) :=
  '(old, err) ← Param c key;
  if negb (is_nil err) && negb (IsNotFound err) then
    ret (old, (fun e => Wrap e "c.Param failed") <$> err)
  else if negb (IsNotFound err) && String.eqb old value then
    ret (old, None)
  else
    let isOverwrite := first_true overwrite in
    if Bool.eqb isOverwrite false && negb (String.eqb old "") then
      ret (old,
           Some (System ("param (" ++ key
                         ++ ") exists but overwrite is false")))
    else
      let i := put_input key value isOverwrite in
      r ← call (ReqPutParameter i) (PutParameter (api c) i);
      match r with
      | inl e =>
          ret (old,
               Some (ToSystem (Remote e)
                       ("c.api.PutParameterWithContext failed ("
                        ++ key ++ ")")))
      | inr _ => ret (old, None)
      end.

End WithRemote.

Arguments GetParameter {R} _ _ _.
Arguments GetParameters {R} _ _ _.
Arguments GetParametersByPath {R} _ _ _.
Arguments DeleteParameter {R} _ _ _.
Arguments PutParameter {R} _ _ _.
Arguments mkClient {R} api isEncrypted.
Arguments api {R} c.
Arguments isEncrypted {R} c.
Arguments NewClient {R} a isEncrypted.
Arguments IsEncrypted {R} c.
Arguments mkWorld {R} remote calls.
Arguments remote {R} w.
Arguments calls {R} w.
Arguments ret {R A} a _.
Arguments bind {R A B} m k _.
Arguments panic {R A} msg _.
Arguments out_of_fuel {R A} _.
Arguments call {R O} q op _.
Arguments get_input {R} c key.
Arguments Param {R} c key _.
Arguments EnsurePathPrefix {R} c path.
Arguments NextPage {R} client p _.
Arguments Path_loop {R} fuel c pager result errs _.
Arguments Path {R} fuel c path recursive _.
Arguments Collect {R} c keys _.
Arguments Delete {R} c key _.
Arguments Put {R} c key value overwrite _.

(** *** What the client expects of a parameter service

    Modelled from the spec: the remote service is not part of the sources.
    It holds (key, value) pairs with unique keys (spec section 3) and
    answers get, delete and put (spec section 6).  [contents] gives the
    pairs held in a state of the remote.  A read of a key that is held
    gives its value; a read of a key that is not held is answered with
    "parameter not found"; a delete of a held key removes it; a put of a
    new key, or a put with the overwrite flag, is accepted; a put that is
    accepted stores the value.  Whether a put without the flag on a held
    key is accepted is left to the service. *)
Record StoreLaws {R : Type} (a : AdapterAPI R)
  (contents : R -> gmap string string) : Prop := mkStoreLaws {
  get_held : forall (r : R) (k v : string) (dec : bool),
    contents r !! k = Some v ->
    exists out r',
      GetParameter a (mkGetParameterInput (Some k) dec) r = (inr out, r')
      /\ parameter_value out = v
      /\ contents r' = contents r;
  get_missing : forall (r : R) (k : string) (dec : bool),
    contents r !! k = None ->
    exists e r',
      GetParameter a (mkGetParameterInput (Some k) dec) r = (inl e, r')
      /\ As_ParameterNotFound e = true
      /\ contents r' = contents r;
  delete_held : forall (r : R) (k v : string),
    contents r !! k = Some v ->
    exists out r',
      DeleteParameter a (mkDeleteParameterInput (Some k)) r = (inr out, r')
      /\ contents r' = delete k (contents r);
  put_new : forall (r : R) (k v : string) (ow : bool),
    contents r !! k = None ->
    exists out r',
      PutParameter a (put_input k v ow) r = (inr out, r')
      /\ contents r' = <[k := v]> (contents r);
  put_overwrite : forall (r : R) (k v0 v : string),
    contents r !! k = Some v0 ->
    exists out r',
      PutParameter a (put_input k v true) r = (inr out, r')
      /\ contents r' = <[k := v]> (contents r);
  put_accepted : forall (r r' : R) (k v : string) (ow : bool)
                        (out : option PutParameterOutput),
    PutParameter a (put_input k v ow) r = (inr out, r') ->
    contents r' = <[k := v]> (contents r)
}.

End pstore.

(* ===================================================================== *)
(** ** Two remotes to run the client against *)
(* ===================================================================== *)

Module memstore.
Import ssm failure pstore.

(** Modelled from the spec: the remote parameter service is not part of
    the sources.  This is an in-memory one: its state is the mapping from
    keys to values that it holds (spec section 3), and it answers the five
    operations of [AdapterAPI] (spec section 6).  It honours the overwrite
    flag of a put: a put without the flag on a key that is held is
    refused.  [not_found], [missing_field] and [already_exists] are the
    errors it answers with. *)
Definition not_found (k : string) : api_error :=
  OperationError "GetParameter"
    (ParameterNotFound ("parameter " ++ k ++ " not found")).

Definition missing_field (f : string) : api_error :=
  APIFault "ValidationException" ("missing required field " ++ f).

Definition already_exists (k : string) : api_error :=
  APIFault "ParameterAlreadyExists" ("parameter " ++ k ++ " already exists").

Definition GetParameter (i : GetParameterInput) (s : gmap string string)
  : reply GetParameterOutput * gmap string string :=
  match GetParameterInput_Name i with
  | None => (inl (missing_field "Name"), s)
  | Some k =>
      match s !! k with
      | Some v =>
          (inr (Some (mkGetParameterOutput
                        (Some (mkSSMParameter (Some k) (Some v))))), s)
      | None => (inl (not_found k), s)
      end
  end.

Definition GetParameters (i : GetParametersInput) (s : gmap string string)
  : reply GetParametersOutput * gmap string string :=
  let names := GetParametersInput_Names i in
  (inr (Some (mkGetParametersOutput
                (omap (fun k =>
                         (fun v => mkSSMParameter (Some k) (Some v))
                           <$> s !! k) names)
                (List.filter (fun k => bool_decide (s !! k = None)) names))),
   s).

(** The part of [name] below the hierarchy [path], if [name] is in it. *)
Definition below (path name : string) : option string :=
  let dir :=
    if String.eqb (substring (String.length path - 1) 1 path) "/"
    then path else (path ++ "/")%string in
  if String.prefix dir name
  then Some (substring (String.length dir)
                       (String.length name - String.length dir) name)
  else None.

Definition in_hierarchy (path : string) (recursive : bool) (name : string)
  : bool :=
  match below path name with
  | Some rest =>
      recursive
      || match index 0 "/" rest with
         | Some _ => false
         | None => true
         end
  | None => false
  end.

(** All the parameters of the hierarchy come in one page. *)
Definition GetParametersByPath (i : GetParametersByPathInput)
  (s : gmap string string)
  : reply GetParametersByPathOutput * gmap string string :=
  match GetParametersByPathInput_Path i with
  | None => (inl (missing_field "Path"), s)
  | Some path =>
      let held :=
        List.filter
          (fun kv =>
             in_hierarchy path (GetParametersByPathInput_Recursive i)
               (fst kv))
          (map_to_list s) in
      (inr (Some (mkGetParametersByPathOutput
                    (List.map
                       (fun kv => mkSSMParameter (Some (fst kv))
                                    (Some (snd kv)))
                       held)
                    None)),
       s)
  end.

Definition DeleteParameter (i : DeleteParameterInput)
  (s : gmap string string)
  : reply DeleteParameterOutput * gmap string string :=
  match DeleteParameterInput_Name i with
  | None => (inl (missing_field "Name"), s)
  | Some k =>
      match s !! k with
      | Some _ => (inr (Some mkDeleteParameterOutput), delete k s)
      | None =>
          (inl (OperationError "DeleteParameter"
                  (ParameterNotFound ("parameter " ++ k ++ " not found"))),
           s)
      end
  end.

Definition PutParameter (i : PutParameterInput) (s : gmap string string)
  : reply PutParameterOutput * gmap string string :=
  match PutParameterInput_Name i, PutParameterInput_Value i with
  | Some k, Some v =>
      match s !! k with
      | Some _ =>
          if PutParameterInput_Overwrite i
          then (inr (Some mkPutParameterOutput), <[k := v]> s)
          else (inl (already_exists k), s)
      | None => (inr (Some mkPutParameterOutput), <[k := v]> s)
      end
  | None, _ => (inl (missing_field "Name"), s)
  | _, None => (inl (missing_field "Value"), s)
  end.

Definition api : AdapterAPI (gmap string string) :=
  mkAdapterAPI _ GetParameter GetParameters GetParametersByPath
    DeleteParameter PutParameter.

(** A client of the in-memory service, and a world holding [s] in which no
    request has been sent yet. *)
Definition client (isEncrypted : bool) : Client (gmap string string) :=
  mkClient api isEncrypted.

Definition start (s : gmap string string) : world (gmap string string) :=
  mkWorld s [].

(** A variant of the service that does not look at the overwrite flag: a
    put always stores the value. *)
Definition PutParameter_upsert (i : PutParameterInput)
  (s : gmap string string)
  : reply PutParameterOutput * gmap string string :=
  match PutParameterInput_Name i, PutParameterInput_Value i with
  | Some k, Some v => (inr (Some mkPutParameterOutput), <[k := v]> s)
  | None, _ => (inl (missing_field "Name"), s)
  | _, None => (inl (missing_field "Value"), s)
  end.

Definition upsert_api : AdapterAPI (gmap string string) :=
  mkAdapterAPI _ GetParameter GetParameters GetParametersByPath
    DeleteParameter PutParameter_upsert.

Definition upsert_client (isEncrypted : bool)
  : Client (gmap string string) :=
  mkClient upsert_api isEncrypted.

End memstore.

Module scripted.
Import ssm failure pstore.

(** A test double for the pagination: its state is the list of the replies
    that it gives to the next requests for a page, in order.  When the
    list is used up it answers with an empty last page.  It refuses the
    other four operations. *)
Definition unexpected {O : Type} (s : list (reply GetParametersByPathOutput))
  : reply O * list (reply GetParametersByPathOutput) :=
  (inl (APIFault "Unexpected" "operation not scripted"), s).

Definition GetParametersByPath (i : GetParametersByPathInput)
  (s : list (reply GetParametersByPathOutput))
  : reply GetParametersByPathOutput * list (reply GetParametersByPathOutput) :=
  match s with
  | r :: s' => (r, s')
  | [] => (inr (Some (mkGetParametersByPathOutput [] None)), [])
  end.

Definition api : AdapterAPI (list (reply GetParametersByPathOutput)) :=
  mkAdapterAPI _
    (fun _ => unexpected) (fun _ => unexpected) GetParametersByPath
    (fun _ => unexpected) (fun _ => unexpected).

Definition client : Client (list (reply GetParametersByPathOutput)) :=
  mkClient api false.

End scripted.

(* ===================================================================== *)
(** ** Package [sls]: lambda triggers *)
(* ===================================================================== *)

Module sls.

(** [type LambdaTrigger string] *)
Definition LambdaTrigger : Set := string.

Definition APIGWTrigger : LambdaTrigger := "apigw".
Definition DDBTrigger : LambdaTrigger := "ddb".
Definition DirectTrigger : LambdaTrigger := "direct".
Definition CognitoTrigger : LambdaTrigger := "cognito".
Definition S3Trigger : LambdaTrigger := "s3".
Definition SNSTrigger : LambdaTrigger := "sns".
Definition SQSTrigger : LambdaTrigger := "sqs".

(** [func (lt LambdaTrigger) String() string] *)
Definition LambdaTrigger_String (lt : LambdaTrigger) : string := lt.

(** [func (lt LambdaTrigger) Empty() bool] *)
Definition Empty (lt : LambdaTrigger) : bool :=
  String.eqb (LambdaTrigger_String lt) "".

(** The triggers that [ToLambdaTrigger] knows, in the order of its cases. *)
Definition registered : list LambdaTrigger :=
  [APIGWTrigger; DDBTrigger; DirectTrigger; CognitoTrigger; S3Trigger;
   SNSTrigger; SQSTrigger].

(** *** [strings.ToLower] *)

(** [c < utf8.RuneSelf] *)
Definition is_ascii (c : ascii) : bool := Nat.ltb (nat_of_ascii c) 128.

(** ['A' <= c && c <= 'Z'] *)
Definition is_upper (c : ascii) : bool :=
  Nat.leb 65 (nat_of_ascii c) && Nat.leb (nat_of_ascii c) 90.

(** [if 'A' <= c && c <= 'Z' { c += 'a' - 'A' }] *)
Definition lower_byte (c : ascii) : ascii :=
  if is_upper c then ascii_of_nat (nat_of_ascii c + 32) else c.

Fixpoint all_bytes (p : ascii -> bool) (s : string) : bool :=
  match s with
  | EmptyString => true
  | String c s' => p c && all_bytes p s'
  end.

Fixpoint any_byte (p : ascii -> bool) (s : string) : bool :=
  match s with
  | EmptyString => false
  | String c s' => p c || any_byte p s'
  end.

Fixpoint map_bytes (f : ascii -> ascii) (s : string) : string :=
  match s with
  | EmptyString => EmptyString
  | String c s' => String (f c) (map_bytes f s')
  end.

Section ToLower.

(** [strings.Map(unicode.ToLower, s)], the path that [strings.ToLower]
    takes for a string with a byte outside ASCII.  It depends on the
    tables of package [unicode], which are left open. *)
Variable unicode_ToLower : string -> string.

(** [strings.ToLower]: a string of ASCII bytes is returned as it is when
    it has no upper-case letter, and with each upper-case letter replaced
    otherwise. *)
Definition ToLower (s : string) : string :=
  if all_bytes is_ascii s then
    if negb (any_byte is_upper s) then s else map_bytes lower_byte s
  else unicode_ToLower s.

(** [func ToLambdaTrigger(s string) (LambdaTrigger, error)].  The error is
    given by its message; the message is formatted from [t], which is
    still empty in the default case. *)
Definition ToLambdaTrigger (s : string) : LambdaTrigger * option string :=
  let t : LambdaTrigger := "" in
  let l := ToLower s in
  if String.eqb l (LambdaTrigger_String APIGWTrigger) then
    (APIGWTrigger, None)
  else if String.eqb l (LambdaTrigger_String DDBTrigger) then
    (DDBTrigger, None)
  else if String.eqb l (LambdaTrigger_String DirectTrigger) then
    (DirectTrigger, None)
  else if String.eqb l (LambdaTrigger_String CognitoTrigger) then
    (CognitoTrigger, None)
  else if String.eqb l (LambdaTrigger_String S3Trigger) then
    (S3Trigger, None)
  else if String.eqb l (LambdaTrigger_String SNSTrigger) then
    (SNSTrigger, None)
  else if String.eqb l (LambdaTrigger_String SQSTrigger) then
    (SQSTrigger, None)
  else
    (t, Some ("event trigger (" ++ LambdaTrigger_String t
              ++ ") is not registered")%string).

End ToLower.

(** Two bytes that are the same letter up to its case. *)
Definition same_letter (a b : ascii) : bool :=
  Ascii.eqb a b
  || (is_upper a && Ascii.eqb b (ascii_of_nat (nat_of_ascii a + 32)))
  || (is_upper b && Ascii.eqb a (ascii_of_nat (nat_of_ascii b + 32))).

(** Two strings that differ at most in the case of their letters. *)
Fixpoint same_up_to_case (s t : string) : bool :=
  match s, t with
  | EmptyString, EmptyString => true
  | String a s', String b t' => same_letter a b && same_up_to_case s' t'
  | _, _ => false
  end.

(** *** Lambdas and services

    Go maps are references.  A map value is [None] for the [nil] map and
    [Some p] for the map stored at [p] in the heap of maps; copies of a
    struct share the maps that their fields refer to. *)
Definition heap : Type := gmap positive (gmap string string).

(** The map that a map value refers to; the [nil] map reads as empty. *)
Definition deref (h : heap) (m : option positive) : gmap string string :=
  match m with
  | Some p => default ∅ (h !! p)
  | None => ∅
  end.

(** [lambda.Environment] of the SDK: [Variables map[string]*string]. *)
Record Environment : Type := mkEnvironment {
  Variables : gmap string (option string)
}.

(** [type ServiceLayout struct] *)
Record ServiceLayout : Set := mkServiceLayout {
  Root : string;
  App : string;
  Lambdas : string;
  Build : string
}.

(** [func (sl ServiceLayout) RootDir() string] *)
Definition RootDir (sl : ServiceLayout) : string := Root sl.

Section Lambda.

(** [Prefix] is declared in a file that is not among the sources: the
    type and its [String] method are left open. *)
Variable Prefix : Type.
Variable Prefix_String : Prefix -> string.

(** The order in which [for k, v := range m] visits a map; Go leaves it
    open. *)
Variable range : forall V : Type, gmap string V -> list (string * V).

(** [type Lambda struct] *)
Record Lambda : Type := mkLambda {
  Lambda_Prefix : Prefix;
  Lambda_Service : string;
  Lambda_Trigger : LambdaTrigger;
  Lambda_BaseName : string;
  Lambda_BinaryName : string;
  Lambda_BinaryZipName : string;
  Lambda_Env : option positive
}.

(** [func (l Lambda) ToAWSEnv() *lambda.Environment]; [aws.String(v)] is a
    pointer to [v], here [Some v]. *)
Definition ToAWSEnv (l : Lambda) (h : heap) : Environment :=
  let data : gmap string (option string) := ∅ in
  let data :=
    fold_left (fun data kv => <[fst kv := Some (snd kv)]> data)
      (range _ (deref h (Lambda_Env l))) data in
  mkEnvironment data.

(** The runtime panic of Go on [m[k] = v] for a [nil] map [m]. *)
Definition nil_map_assignment : string :=
  "assignment to entry in nil map".

(** [func (l Lambda) AddEnv(name, value string)]: [l.Env[name] = value]. *)
Definition AddEnv (l : Lambda) (name value : string) (h : heap)
  : pstore.outcome unit * heap :=
  match Lambda_Env l with
  | None => (pstore.Panicked nil_map_assignment, h)
  | Some p =>
      (pstore.Returned tt, <[p := <[name := value]> (deref h (Some p))]> h)
  end.

(** [func (l Lambda) TriggerDir() string] *)
Definition Lambda_TriggerDir (l : Lambda) : string :=
  LambdaTrigger_String (Lambda_Trigger l).

(** [func (l Lambda) String() string] *)
Definition Lambda_String (l : Lambda) : string :=
  let name :=
    (LambdaTrigger_String (Lambda_Trigger l) ++ "_" ++ Lambda_BaseName l)
    %string in
  (Prefix_String (Lambda_Prefix l) ++ "-" ++ Lambda_Service l ++ "-" ++ name)
  %string.

(** [func (l Lambda) QualifiedName() string] *)
Definition QualifiedName (l : Lambda) : string := Lambda_String l.

(** [type Service struct]; the type of the [API] field belongs to the SDK
    and is left open.  [Features] is only read in the sources, so the map
    it refers to is given in place. *)
Record Service (API : Type) : Type := mkService {
  Service_ServiceLayout : ServiceLayout;
  Service_Name : string;
  Service_Env : string;
  Service_API : API;
  Service_Features : option (gmap string Lambda)
}.

Arguments mkService {API} _ _ _ _ _.
Arguments Service_ServiceLayout {API} _.
Arguments Service_Name {API} _.
Arguments Service_Env {API} _.
Arguments Service_API {API} _.
Arguments Service_Features {API} _.

(** [func NewService(name, env string, layout ServiceLayout, api) *Service] *)
Definition NewService {API : Type} (name env : string)
  (layout : ServiceLayout) (api : API) : Service API :=
  mkService layout name env api (Some ∅).

(** [func (s *Service) FeatureNames() []string] *)
Definition FeatureNames {API : Type} (s : Service API) : list string :=
  let names : list string := [] in
  match Service_Features s with
  | None => names
  | Some features =>
      fold_left (fun names kv => names ++ [fst kv]) (range _ features) names
  end.

End Lambda.

Arguments mkLambda {Prefix} _ _ _ _ _ _ _.
Arguments Lambda_Prefix {Prefix} l.
Arguments Lambda_Service {Prefix} l.
Arguments Lambda_Trigger {Prefix} l.
Arguments Lambda_BaseName {Prefix} l.
Arguments Lambda_BinaryName {Prefix} l.
Arguments Lambda_BinaryZipName {Prefix} l.
Arguments Lambda_Env {Prefix} l.
Arguments ToAWSEnv {Prefix} range l h.
Arguments AddEnv {Prefix} l name value h.
Arguments Lambda_TriggerDir {Prefix} l.
Arguments Lambda_String {Prefix} Prefix_String l.
Arguments QualifiedName {Prefix} Prefix_String l.
Arguments Service_Features {Prefix API} _.
Arguments FeatureNames {Prefix} range {API} s.

End sls.

(* ===================================================================== *)
(** ** Runs of the pagination *)
(* ===================================================================== *)

Module paging.
Import ssm failure pstore.

(** The paginator after [NextPage] has returned [page]. *)
Definition advance (p : GetParametersByPathPaginator)
  (page : GetParametersByPathOutput) : GetParametersByPathPaginator :=
  mkPaginator (pager_params p) (GetParametersByPathOutput_NextToken page)
    false.

(** [serves a p s pages p' s']: starting with the paginator [p] and the
    remote in state [s], the paginator has more pages and the remote
    answers its requests with [pages], one after the other; this leaves
    the paginator as [p'] and the remote in state [s']. *)
Fixpoint serves {R : Type} (a : AdapterAPI R)
  (p : GetParametersByPathPaginator) (s : R)
  (pages : list GetParametersByPathOutput)
  (p' : GetParametersByPathPaginator) (s' : R) : Prop :=
  match pages with
  | [] => p' = p /\ s' = s
  | page :: rest =>
      HasMorePages p = true
      /\ exists s1,
          GetParametersByPath a (page_request p) s = (inr (Some page), s1)
          /\ serves a (advance p page) s1 rest p' s'
  end.

(** The requests that the paginator sends to get [pages]. *)
Fixpoint page_requests (p : GetParametersByPathPaginator)
  (pages : list GetParametersByPathOutput) : list Request :=
  match pages with
  | [] => []
  | page :: rest =>
      ReqGetParametersByPath (page_request p)
      :: page_requests (advance p page) rest
  end.

(** What the loop of [Path] has in [result] after [pages]. *)
Definition collect_pages (pages : list GetParametersByPathOutput)
  (result : gmap string string) : gmap string string :=
  fold_left
    (fun result page =>
       store_parameters (GetParametersByPathOutput_Parameters page) result)
    pages result.

(** The value of [isRecursive] in [Path]. *)
Definition is_recursive (recursive : list bool) : bool :=
  match recursive with
  | false :: _ => false
  | _ => true
  end.

(** The paginator that [Path] makes for a non-empty [path]. *)
Definition Path_pager {R : Type} (c : Client R) (path : string)
  (recursive : list bool) : GetParametersByPathPaginator :=
  NewGetParametersByPathPaginator
    (mkGetParametersByPathInput (Some (EnsurePathPrefix c path))
       (IsEncrypted c) (is_recursive recursive) None).

(** [p] puts [v] under [k]: its name is [k] and its value is [v]. *)
Definition puts (k v : string) (p : SSMParameter) : Prop :=
  p_Name p = Some k /\ p_Value p = Some v.

(** [p] puts nothing under [k]. *)
Definition skips (k : string) (p : SSMParameter) : Prop :=
  p_Name p <> Some k \/ p_Value p = None.

End paging.

(* ===================================================================== *)
(** ** Two more remotes *)
(* ===================================================================== *)

Module readonly.
Import ssm failure pstore.

(** The in-memory service seen by a client that may only read: reads are
    answered as by [memstore], deletes and puts are refused. *)
Definition denied : api_error :=
  APIFault "AccessDeniedException" "not authorized to perform the operation".

Definition api : AdapterAPI (gmap string string) :=
  mkAdapterAPI _ memstore.GetParameter memstore.GetParameters
    memstore.GetParametersByPath
    (fun _ s => (inl denied, s)) (fun _ s => (inl denied, s)).

Definition client : Client (gmap string string) := mkClient api false.

End readonly.

Module silent.
Import ssm failure pstore.

(** A test double that answers every request with neither an error nor an
    output, as a stub left at its zero values does. *)
Definition api : AdapterAPI unit :=
  mkAdapterAPI _
    (fun _ s => (inr None, s)) (fun _ s => (inr None, s))
    (fun _ s => (inr None, s)) (fun _ s => (inr None, s))
    (fun _ s => (inr None, s)).

Definition client : Client unit := mkClient api false.

End silent.

(* ===================================================================== *)
(** ** Properties of the client *)
(* ===================================================================== *)

Import ssm failure pstore.

(** *** How [Param] runs *)

Section ParamFacts.

Context {R : Type} (c : Client R).

Lemma Param_empty_key (w : world R) :
  Param c "" w
  = (Returned
       ("", Some (System "key is empty, a non empty key is required")), w).
Proof. reflexivity. Qed.

Lemma Param_value (key : string) (w : world R)
  (out : option GetParameterOutput) (s : R) :
  key <> "" ->
  GetParameter (api c) (get_input c key) (remote w) = (inr out, s) ->
  Param c key w
  = (Returned (parameter_value out, None),
     mkWorld s (calls w ++ [ReqGetParameter (get_input c key)])).
Proof.
  intros Hkey Hget. unfold Param.
  apply String.eqb_neq in Hkey. rewrite Hkey.
  unfold mbind, M_bind, bind, call. rewrite Hget.
  reflexivity.
Qed.

Lemma Param_error (key : string) (w : world R) (e : api_error) (s : R) :
  key <> "" ->
  GetParameter (api c) (get_input c key) (remote w) = (inl e, s) ->
  Param c key w
  = (Returned
       ("",
        Some (if As_ParameterNotFound e
              then ToNotFound (Remote e)
                     ("c.api.GetParameter failed (" ++ key ++ ")")
              else ToSystem (Remote e)
                     ("c.api.GetParameter failed (" ++ key ++ ")"))),
     mkWorld s (calls w ++ [ReqGetParameter (get_input c key)])).
Proof.
  intros Hkey Hget. unfold Param.
  apply String.eqb_neq in Hkey. rewrite Hkey.
  unfold mbind, M_bind, bind, call. rewrite Hget.
  reflexivity.
Qed.

End ParamFacts.

(** *** The client against a lawful parameter service *)

Section StoreFacts.

Context {R : Type} (c : Client R) (contents : R -> gmap string string).
Hypothesis laws : StoreLaws (api c) contents.

(** Reading a key that the store holds gives its value, with no error. *)
Lemma Param_held (key v : string) (w : world R) :
  key <> "" ->
  contents (remote w) !! key = Some v ->
  exists s,
    Param c key w
    = (Returned (v, None),
       mkWorld s (calls w ++ [ReqGetParameter (get_input c key)]))
    /\ contents s = contents (remote w).
Proof.
  intros Hkey Hheld.
  destruct (get_held _ _ laws _ _ _ (IsEncrypted c) Hheld)
    as (out & s & Hget & Hval & Hsame).
  exists s. split; [| exact Hsame].
  rewrite (Param_value c key w out s Hkey Hget). by rewrite Hval.
Qed.

(** Reading a key that the store does not hold gives a NotFound error. *)
Lemma Param_missing (key : string) (w : world R) :
  key <> "" ->
  contents (remote w) !! key = None ->
  exists e s,
    Param c key w
    = (Returned ("", Some e),
       mkWorld s (calls w ++ [ReqGetParameter (get_input c key)]))
    /\ class_of e = Some CNotFound
    /\ contents s = contents (remote w).
Proof.
  intros Hkey Hmissing.
  destruct (get_missing _ _ laws _ _ (IsEncrypted c) Hmissing)
    as (e & s & Hget & Hnf & Hsame).
  eexists _, s. split; [| split; [| exact Hsame]].
  - rewrite (Param_error c key w e s Hkey Hget). rewrite Hnf. reflexivity.
  - reflexivity.
Qed.

(** C4.  When the store holds [value] under [key], [Put c key value]
    returns [value] with no error, whatever the overwrite flag is; the
    only request sent is the read of [key], so no write is sent, and the
    store holds what it held. *)
Theorem Put_same_value_is_noop (key value : string) (overwrite : list bool)
  (w : world R) :
  key <> "" ->
  contents (remote w) !! key = Some value ->
  exists w',
    Put c key value overwrite w = (Returned (value, None), w')
    /\ calls w' = calls w ++ [ReqGetParameter (get_input c key)]
    /\ contents (remote w') = contents (remote w).
Proof.
  intros Hkey Hheld.
  destruct (Param_held key value w Hkey Hheld) as (s & Hparam & Hsame).
  eexists. split; [| split].
  - unfold Put, mbind, M_bind, bind. rewrite Hparam. simpl.
    rewrite String.eqb_refl. reflexivity.
  - reflexivity.
  - exact Hsame.
Qed.

(** C5.  [Delete] of a key that the store holds returns the value held
    before and leaves a store without the key; [Delete] of a key that the
    store does not hold fails with a NotFound error, sends no delete and
    leaves the store as it was. *)
Theorem Delete_returns_old_value_or_NotFound (key : string) (w : world R) :
  key <> "" ->
  (forall v : string,
      contents (remote w) !! key = Some v ->
      exists w',
        Delete c key w = (Returned (v, None), w')
        /\ contents (remote w') = delete key (contents (remote w))
        /\ contents (remote w') !! key = None)
  /\ (contents (remote w) !! key = None ->
      exists e w',
        Delete c key w = (Returned ("", Some e), w')
        /\ class_of e = Some CNotFound
        /\ calls w' = calls w ++ [ReqGetParameter (get_input c key)]
        /\ contents (remote w') = contents (remote w)).
Proof.
  intros Hkey. split.
  - intros v Hheld.
    destruct (Param_held key v w Hkey Hheld) as (s & Hparam & Hsame).
    rewrite <- Hsame in Hheld.
    destruct (delete_held _ _ laws _ _ _ Hheld) as (out & s' & Hdel & Hgone).
    eexists. split; [| split].
    + unfold Delete, mbind, M_bind, bind. rewrite Hparam. simpl.
      unfold call. simpl. rewrite Hdel. reflexivity.
    + simpl. by rewrite Hgone, Hsame.
    + simpl. rewrite Hgone. apply lookup_delete_eq.
  - intros Hmissing.
    destruct (Param_missing key w Hkey Hmissing)
      as (e & s & Hparam & Hclass & Hsame).
    eexists _, _. split; [| split; [| split]].
    + unfold Delete, mbind, M_bind, bind. rewrite Hparam. reflexivity.
    + exact Hclass.
    + reflexivity.
    + exact Hsame.
Qed.

(** C7.  With the overwrite flag set, [Put] of a new value on a key that
    holds [v1] returns [v1] with no error and leaves the store holding the
    new value; [Put] on a key that the store does not hold creates it and
    returns the empty string, whatever the flag is. *)
Theorem Put_overwrites_or_creates (key : string) (w : world R) :
  key <> "" ->
  (forall (v1 v2 : string) (rest : list bool),
      contents (remote w) !! key = Some v1 ->
      v1 <> v2 ->
      exists w',
        Put c key v2 (true :: rest) w = (Returned (v1, None), w')
        /\ contents (remote w') = <[key := v2]> (contents (remote w))
        /\ contents (remote w') !! key = Some v2)
  /\ (forall (v : string) (overwrite : list bool),
      contents (remote w) !! key = None ->
      exists w',
        Put c key v overwrite w = (Returned ("", None), w')
        /\ contents (remote w') = <[key := v]> (contents (remote w))
        /\ contents (remote w') !! key = Some v).
Proof.
  intros Hkey. split.
  - intros v1 v2 rest Hheld Hdiff.
    destruct (Param_held key v1 w Hkey Hheld) as (s & Hparam & Hsame).
    rewrite <- Hsame in Hheld.
    destruct (put_overwrite _ _ laws _ _ _ v2 Hheld)
      as (out & s' & Hput & Hnew).
    apply String.eqb_neq in Hdiff.
    eexists. split; [| split].
    + unfold Put, mbind, M_bind, bind. rewrite Hparam. simpl.
      rewrite Hdiff. simpl. unfold call. simpl. rewrite Hput. reflexivity.
    + simpl. by rewrite Hnew, Hsame.
    + simpl. rewrite Hnew. apply lookup_insert_eq.
  - intros v overwrite Hmissing.
    destruct (Param_missing key w Hkey Hmissing)
      as (e & s & Hparam & Hclass & Hsame).
    rewrite <- Hsame in Hmissing.
    destruct (put_new _ _ laws _ _ v (first_true overwrite) Hmissing)
      as (out & s' & Hput & Hnew).
    eexists. split; [| split].
    + unfold Put, mbind, M_bind, bind. rewrite Hparam. simpl.
      rewrite Hclass. rewrite bool_decide_eq_true_2 by reflexivity. simpl.
      rewrite andb_false_r. simpl.
      unfold call. simpl. rewrite Hput. reflexivity.
    + simpl. by rewrite Hnew, Hsame.
    + simpl. rewrite Hnew. apply lookup_insert_eq.
Qed.

(** C1, as the code has it.  Without the overwrite flag, [Put] of a new
    value on a key that holds a non-empty value [v1] fails with a System
    error and returns [v1]; the only request sent is the read of [key], so
    no write is sent, and the store holds what it held. *)
Theorem Put_without_overwrite_keeps_nonempty_value (key v1 v2 : string)
  (overwrite : list bool) (w : world R) :
  key <> "" ->
  contents (remote w) !! key = Some v1 ->
  v1 <> "" ->
  v1 <> v2 ->
  first_true overwrite = false ->
  exists e w',
    Put c key v2 overwrite w = (Returned (v1, Some e), w')
    /\ e = System ("param (" ++ key ++ ") exists but overwrite is false")
    /\ class_of e = Some CSystem
    /\ calls w' = calls w ++ [ReqGetParameter (get_input c key)]
    /\ contents (remote w') = contents (remote w).
Proof.
  intros Hkey Hheld Hnonempty Hdiff Hflag.
  destruct (Param_held key v1 w Hkey Hheld) as (s & Hparam & Hsame).
  apply String.eqb_neq in Hdiff, Hnonempty.
  eexists _, _. split; [| split; [| split; [| split]]].
  - unfold Put, mbind, M_bind, bind. rewrite Hparam. simpl.
    rewrite Hdiff, Hflag, Hnonempty. reflexivity.
  - reflexivity.
  - reflexivity.
  - reflexivity.
  - exact Hsame.
Qed.

(** C10, as the code has it.  Without the overwrite flag, [Put] of a
    non-empty value on a key that holds the empty string does not stop at
    the check for an existing value: after the read it sends a write of
    the new value with the overwrite flag off.  When the remote accepts
    the write, [Put] returns the empty string with no error and the store
    holds the new value.  When the remote refuses it, [Put] returns the
    error of the remote as a System error. *)
Theorem Put_on_empty_value_writes (key v : string)
  (overwrite : list bool) (w : world R) :
  key <> "" ->
  contents (remote w) !! key = Some "" ->
  v <> "" ->
  first_true overwrite = false ->
  exists s,
    contents s = contents (remote w)
    /\ (forall (out : option PutParameterOutput) (s' : R),
          PutParameter (api c) (put_input key v false) s = (inr out, s') ->
          Put c key v overwrite w
          = (Returned ("", None),
             mkWorld s'
               (calls w
                ++ [ReqGetParameter (get_input c key);
                    ReqPutParameter (put_input key v false)]))
          /\ contents s' = <[key := v]> (contents (remote w))
          /\ contents s' !! key = Some v)
    /\ (forall (e : api_error) (s' : R),
          PutParameter (api c) (put_input key v false) s = (inl e, s') ->
          Put c key v overwrite w
          = (Returned
               ("",
                Some (ToSystem (Remote e)
                        ("c.api.PutParameterWithContext failed ("
                         ++ key ++ ")"))),
             mkWorld s'
               (calls w
                ++ [ReqGetParameter (get_input c key);
                    ReqPutParameter (put_input key v false)]))).
Proof.
  intros Hkey Hheld Hnonempty Hflag.
  destruct (Param_held key "" w Hkey Hheld) as (s & Hparam & Hsame).
  exists s. split; [exact Hsame |].
  destruct v as [| a v']; [congruence |].
  assert (Hrun :
    Put c key (String a v') overwrite w
    = (Returned
         ("",
          match
            fst (PutParameter (api c) (put_input key (String a v') false) s)
          with
          | inl e =>
              Some (ToSystem (Remote e)
                      ("c.api.PutParameterWithContext failed ("
                       ++ key ++ ")"))
          | inr _ => None
          end),
       mkWorld
         (snd (PutParameter (api c) (put_input key (String a v') false) s))
         (calls w
          ++ [ReqGetParameter (get_input c key);
              ReqPutParameter (put_input key (String a v') false)]))).
  { unfold Put, mbind, M_bind, bind. rewrite Hparam. simpl.
    rewrite Hflag. simpl. unfold call. simpl.
    destruct (PutParameter (api c) (put_input key (String a v') false) s)
      as [[e | out] s'];
      simpl; rewrite <- app_assoc; reflexivity. }
  split.
  - intros out s' Hput. rewrite Hrun, Hput. simpl.
    assert (Hnew := put_accepted _ _ laws _ _ _ _ _ _ Hput).
    rewrite Hsame in Hnew.
    split; [reflexivity | split; [exact Hnew |]].
    rewrite Hnew. apply lookup_insert_eq.
  - intros e s' Hput. rewrite Hrun, Hput. reflexivity.
Qed.

End StoreFacts.

(** *** The client against any remote *)

Section ClientFacts.

Context {R : Type} (c : Client R).

(** C3, as the code has it.  [Param] with an empty key, [Path] with an
    empty path and [Collect] with no key fail with a System error and send
    no request: the world is the one they started in. *)
Theorem empty_argument_is_System_error (w : world R) (fuel : nat)
  (recursive : list bool) :
  (exists e,
      Param c "" w = (Returned ("", Some e), w)
      /\ class_of e = Some CSystem)
  /\ (exists e,
      Path fuel c "" recursive w = (Returned (∅, Some e), w)
      /\ class_of e = Some CSystem)
  /\ (exists e,
      Collect c [] w = (Returned (None, [], Some e), w)
      /\ class_of e = Some CSystem).
Proof.
  split; [| split]; eexists; split; reflexivity.
Qed.

(** C6.  When the remote answers the read of [key] with an error, [Param]
    returns an error of class NotFound if the error of the remote is, or
    wraps, "parameter not found", and of class System otherwise.  Against
    a lawful parameter service, [Param] of a key that is not held fails
    with a NotFound error. *)
Theorem Param_classifies_remote_errors (key : string) (w : world R) :
  key <> "" ->
  (forall (e : api_error) (s : R),
      GetParameter (api c) (get_input c key) (remote w) = (inl e, s) ->
      exists err w',
        Param c key w = (Returned ("", Some err), w')
        /\ class_of err
           = Some (if As_ParameterNotFound e then CNotFound else CSystem)
        /\ (IsNotFound (Some err) = true <-> As_ParameterNotFound e = true))
  /\ (forall contents : R -> gmap string string,
      StoreLaws (api c) contents ->
      contents (remote w) !! key = None ->
      exists err w',
        Param c key w = (Returned ("", Some err), w')
        /\ class_of err = Some CNotFound).
Proof.
  intros Hkey. split.
  - intros e s Hget. eexists _, _. split; [| split].
    + apply (Param_error c key w e s Hkey Hget).
    + by destruct (As_ParameterNotFound e).
    + destruct (As_ParameterNotFound e); simpl; split; try done.
  - intros contents laws Hmissing.
    destruct (Param_missing c contents laws key w Hkey Hmissing)
      as (e & s & Hparam & Hclass & _).
    eauto.
Qed.

(** [EnsurePathPrefix] puts a separator in front of a path that has none
    and keeps a path that has one. *)
Lemma EnsurePathPrefix_adds (p : string) :
  String.prefix "/" p = false -> EnsurePathPrefix c p = ("/" ++ p)%string.
Proof. intros H. unfold EnsurePathPrefix. by rewrite H. Qed.

Lemma EnsurePathPrefix_keeps (p : string) :
  EnsurePathPrefix c ("/" ++ p) = ("/" ++ p)%string.
Proof.
  unfold EnsurePathPrefix. simpl.
  destruct p; reflexivity.
Qed.

(** Every request of the pagination loop asks for the hierarchy that the
    paginator was made for. *)
Lemma Path_loop_requests (path : string) (fuel : nat) :
  forall (pager : GetParametersByPathPaginator)
         (result : gmap string string) (errs : list error) (w : world R),
    GetParametersByPathInput_Path (pager_params pager) = Some path ->
    exists new,
      calls (snd (Path_loop fuel c pager result errs w)) = calls w ++ new
      /\ Forall (fun q => request_path q = Some path) new.
Proof.
  induction fuel as [| fuel IH]; intros pager result errs w Hpath.
  - exists []. rewrite app_nil_r. split; [| constructor].
    simpl. by destruct (HasMorePages pager).
  - simpl. destruct (HasMorePages pager) eqn:Hmore.
    + unfold mbind, M_bind, bind, NextPage. rewrite Hmore. simpl.
      unfold mbind, M_bind, bind, call.
      destruct (GetParametersByPath (api c) (page_request pager) (remote w))
        as [[e | [out |]] s]; simpl.
      * exists [ReqGetParametersByPath (page_request pager)].
        split; [reflexivity |]. repeat constructor. exact Hpath.
      * match goal with
        | |- context [Path_loop fuel c ?p ?m ?l ?w'] =>
            destruct (IH p m l w' Hpath) as (new & Hcalls & Hall)
        end.
        exists (ReqGetParametersByPath (page_request pager) :: new).
        split.
        -- rewrite Hcalls. simpl. by rewrite <- app_assoc.
        -- constructor; [exact Hpath | exact Hall].
      * exists [ReqGetParametersByPath (page_request pager)].
        split; [reflexivity |]. repeat constructor. exact Hpath.
    + exists []. rewrite app_nil_r. split; [reflexivity | constructor].
Qed.

(** C8.  For a non-empty path [p] without a leading separator, [Path] of
    [p] and [Path] of ["/" ++ p] are the same computation: same result,
    same requests, same final state of the remote.  Both normalize the
    path to ["/" ++ p], and every request sent asks for ["/" ++ p]. *)
Theorem Path_leading_separator (fuel : nat) (p : string)
  (recursive : list bool) (w : world R) :
  p <> "" ->
  String.prefix "/" p = false ->
  Path fuel c p recursive w = Path fuel c ("/" ++ p) recursive w
  /\ EnsurePathPrefix c p = ("/" ++ p)%string
  /\ EnsurePathPrefix c ("/" ++ p) = ("/" ++ p)%string
  /\ exists new,
      calls (snd (Path fuel c p recursive w)) = calls w ++ new
      /\ Forall (fun q => request_path q = Some ("/" ++ p)%string) new.
Proof.
  intros Hne Hprefix.
  assert (Hadds := EnsurePathPrefix_adds p Hprefix).
  assert (Hkeeps := EnsurePathPrefix_keeps p).
  apply String.eqb_neq in Hne.
  split; [| split; [exact Hadds | split; [exact Hkeeps |]]].
  - unfold Path. rewrite Hne, Hadds, Hkeeps. reflexivity.
  - unfold Path. rewrite Hne, Hadds.
    apply Path_loop_requests. reflexivity.
Qed.

(** When the remote answers the request for a page with an error, the
    paginator hands [(nil, err)] to the loop of [Path]; the loop notes the
    error and then reads [out.Parameters] through the [nil] pointer. *)
Lemma Path_loop_page_error (fuel : nat)
  (pager : GetParametersByPathPaginator)
  (result : gmap string string) (errs : list error) (w : world R)
  (e : api_error) (s : R) :
  HasMorePages pager = true ->
  GetParametersByPath (api c) (page_request pager) (remote w) = (inl e, s) ->
  Path_loop (S fuel) c pager result errs w
  = (Panicked nil_dereference,
     mkWorld s (calls w ++ [ReqGetParametersByPath (page_request pager)])).
Proof.
  intros Hmore Hpage. simpl. rewrite Hmore.
  unfold mbind, M_bind, bind, NextPage. rewrite Hmore. simpl.
  unfold mbind, M_bind, bind, call.
  rewrite Hpage. reflexivity.
Qed.

End ClientFacts.

(* ===================================================================== *)
(** ** The client against the in-memory service *)
(* ===================================================================== *)

(** The in-memory service is a lawful parameter service; what it holds is
    its state. *)
Lemma memstore_laws : StoreLaws memstore.api (fun s => s).
Proof.
  constructor.
  - intros s k v dec Hheld. eexists _, s. simpl.
    unfold memstore.GetParameter. simpl. rewrite Hheld. done.
  - intros s k dec Hmissing. eexists _, s. simpl.
    unfold memstore.GetParameter. simpl. rewrite Hmissing. done.
  - intros s k v Hheld. eexists _, _. simpl.
    unfold memstore.DeleteParameter. simpl. rewrite Hheld. done.
  - intros s k v ow Hmissing. eexists _, _. simpl.
    unfold memstore.PutParameter. simpl. rewrite Hmissing. done.
  - intros s k v0 v Hheld. eexists _, _. simpl.
    unfold memstore.PutParameter. simpl. rewrite Hheld. done.
  - intros s s' k v ow out. simpl.
    unfold memstore.PutParameter. simpl.
    destruct (s !! k); [destruct ow |]; congruence.
Qed.

(** So is the variant that does not look at the overwrite flag. *)
Lemma upsert_laws : StoreLaws memstore.upsert_api (fun s => s).
Proof.
  constructor.
  - intros s k v dec Hheld. eexists _, s. simpl.
    unfold memstore.GetParameter. simpl. rewrite Hheld. done.
  - intros s k dec Hmissing. eexists _, s. simpl.
    unfold memstore.GetParameter. simpl. rewrite Hmissing. done.
  - intros s k v Hheld. eexists _, _. simpl.
    unfold memstore.DeleteParameter. simpl. rewrite Hheld. done.
  - intros s k v ow Hmissing. eexists _, _. done.
  - intros s k v0 v Hheld. eexists _, _. done.
  - intros s s' k v ow out. simpl.
    unfold memstore.PutParameter_upsert. simpl. congruence.
Qed.

(** Against the in-memory service a call of [Path] with a non-empty path
    returns after one request, for every bound of at least one page. *)
Lemma Path_memstore_returns (fuel : nat) (enc : bool) (path : string)
  (recursive : list bool) (w : world (gmap string string)) :
  path <> "" ->
  exists m q,
    Path (S fuel) (memstore.client enc) path recursive w
    = (Returned (m, None), mkWorld (remote w) (calls w ++ [q])).
Proof.
  intros Hne. apply String.eqb_neq in Hne.
  unfold Path. rewrite Hne. simpl.
  unfold mbind, M_bind, bind, NextPage. simpl.
  unfold mbind, M_bind, bind, call. simpl.
  destruct fuel; simpl; eexists _, _; reflexivity.
Qed.

(** The theorems at concrete stores. *)

Lemma Put_same_value_is_noop_witness :
  exists w',
    Put (memstore.client false) "k" "a" [true]
      (memstore.start {["k" := "a"]})
    = (Returned ("a", None), w')
    /\ calls w'
       = [ReqGetParameter (mkGetParameterInput (Some "k") false)]
    /\ remote w' = {["k" := "a"]}.
Proof.
  refine (Put_same_value_is_noop (memstore.client false) (fun s => s)
            memstore_laws "k" "a" [true] (memstore.start {["k" := "a"]})
            _ _).
  - discriminate.
  - reflexivity.
Defined.

Lemma Delete_returns_old_value_or_NotFound_witness :
  (exists w',
      Delete (memstore.client false) "k" (memstore.start {["k" := "a"]})
      = (Returned ("a", None), w')
      /\ remote w' = delete "k" {["k" := "a"]}
      /\ remote w' !! "k" = None)
  /\ (exists e w',
      Delete (memstore.client false) "z" (memstore.start {["k" := "a"]})
      = (Returned ("", Some e), w')
      /\ class_of e = Some CNotFound
      /\ calls w' = [ReqGetParameter (mkGetParameterInput (Some "z") false)]
      /\ remote w' = {["k" := "a"]}).
Proof.
  split.
  - refine (proj1 (Delete_returns_old_value_or_NotFound
                     (memstore.client false) (fun s => s) memstore_laws
                     "k" (memstore.start {["k" := "a"]}) _) "a" _).
    + discriminate.
    + reflexivity.
  - refine (proj2 (Delete_returns_old_value_or_NotFound
                     (memstore.client false) (fun s => s) memstore_laws
                     "z" (memstore.start {["k" := "a"]}) _) _).
    + discriminate.
    + reflexivity.
Defined.

Lemma Put_overwrites_or_creates_witness :
  (exists w',
      Put (memstore.client false) "k" "b" [true]
        (memstore.start {["k" := "a"]})
      = (Returned ("a", None), w')
      /\ remote w' = <["k" := "b"]> {["k" := "a"]}
      /\ remote w' !! "k" = Some "b")
  /\ (exists w',
      Put (memstore.client false) "z" "b" []
        (memstore.start {["k" := "a"]})
      = (Returned ("", None), w')
      /\ remote w' = <["z" := "b"]> {["k" := "a"]}
      /\ remote w' !! "z" = Some "b").
Proof.
  split.
  - refine (proj1 (Put_overwrites_or_creates
                     (memstore.client false) (fun s => s) memstore_laws
                     "k" (memstore.start {["k" := "a"]}) _) "a" "b" [] _ _).
    + discriminate.
    + reflexivity.
    + discriminate.
  - refine (proj2 (Put_overwrites_or_creates
                     (memstore.client false) (fun s => s) memstore_laws
                     "z" (memstore.start {["k" := "a"]}) _) "b" [] _).
    + discriminate.
    + reflexivity.
Defined.

Lemma Put_without_overwrite_keeps_nonempty_value_witness :
  exists e w',
    Put (memstore.client false) "k" "b" [] (memstore.start {["k" := "a"]})
    = (Returned ("a", Some e), w')
    /\ e = System "param (k) exists but overwrite is false"
    /\ class_of e = Some CSystem
    /\ calls w' = [ReqGetParameter (mkGetParameterInput (Some "k") false)]
    /\ remote w' = {["k" := "a"]}.
Proof.
  refine (Put_without_overwrite_keeps_nonempty_value
            (memstore.client false) (fun s => s) memstore_laws
            "k" "a" "b" [] (memstore.start {["k" := "a"]}) _ _ _ _ _).
  - discriminate.
  - reflexivity.
  - discriminate.
  - discriminate.
  - reflexivity.
Defined.

(** C1 at concrete stores.  The store holds ["a"] under ["k"]: [Put] of
    ["b"] without the overwrite flag fails, but with an error of class
    System, not Conflict.  The store holds the empty string under ["k"]:
    the same [Put] sends a write to the remote, and against a service that
    accepts the write it returns no error and the store holds ["b"]. *)
Lemma Put_without_overwrite_counterexample :
  fst (Put (memstore.client false) "k" "b" []
         (memstore.start {["k" := "a"]}))
  = Returned ("a", Some (System "param (k) exists but overwrite is false"))
  /\ ~ (exists old e,
         fst (Put (memstore.client false) "k" "b" []
                (memstore.start {["k" := "a"]}))
         = Returned (old, Some e)
         /\ class_of e = Some CConflict)
  /\ calls (snd (Put (memstore.client false) "k" "b" []
                   (memstore.start {["k" := ""]})))
     = [ReqGetParameter (mkGetParameterInput (Some "k") false);
        ReqPutParameter (put_input "k" "b" false)]
  /\ Put (memstore.upsert_client false) "k" "b" []
       (memstore.start {["k" := ""]})
     = (Returned ("", None),
        mkWorld {["k" := "b"]}
          [ReqGetParameter (mkGetParameterInput (Some "k") false);
           ReqPutParameter (put_input "k" "b" false)]).
Proof.
  split; [reflexivity | split; [| split; reflexivity]].
  intros (old & e & Hput & Hclass).
  vm_compute in Hput. injection Hput as _ <-. discriminate Hclass.
Qed.

Lemma Put_on_empty_value_writes_witness :
  Put (memstore.upsert_client false) "k" "b" []
    (memstore.start {["k" := ""]})
  = (Returned ("", None),
     mkWorld (<["k" := "b"]> {["k" := ""]})
       [ReqGetParameter (mkGetParameterInput (Some "k") false);
        ReqPutParameter (put_input "k" "b" false)])
  /\ (<["k" := "b"]> {["k" := ""]} : gmap string string) !! "k" = Some "b".
Proof.
  destruct (Put_on_empty_value_writes (memstore.upsert_client false)
              (fun s => s) upsert_laws "k" "b" []
              (memstore.start {["k" := ""]}))
    as (s & Hs & Haccepted & _).
  - discriminate.
  - reflexivity.
  - discriminate.
  - reflexivity.
  - simpl in Hs. subst s.
    destruct (Haccepted (Some mkPutParameterOutput)
                (<["k" := "b"]> {["k" := ""]}) eq_refl)
      as (Hput & _ & Hlookup).
    split; [exact Hput | exact Hlookup].
Defined.

(** The same call against the service that honours the overwrite flag:
    the write is sent and refused, [Put] fails with a System error, and
    the store still holds the empty string. *)
Lemma Put_on_empty_value_refused :
  Put (memstore.client false) "k" "b" [] (memstore.start {["k" := ""]})
  = (Returned
       ("",
        Some (ToSystem (Remote (memstore.already_exists "k"))
                "c.api.PutParameterWithContext failed (k)")),
     mkWorld {["k" := ""]}
       [ReqGetParameter (mkGetParameterInput (Some "k") false);
        ReqPutParameter (put_input "k" "b" false)]).
Proof. reflexivity. Qed.

(** C10 at a concrete store.  The in-memory service is lawful, holds the
    empty string under ["k"] and honours the overwrite flag.  [Put] of
    ["b"] without the flag sends the write with the flag off, the service
    refuses it, and [Put] fails with a System error: it does not succeed,
    and the store still holds the empty string, not ["b"]. *)
Lemma Put_on_empty_value_counterexample :
  StoreLaws memstore.api (fun s => s)
  /\ ({["k" := ""]} : gmap string string) !! "k" = Some ""
  /\ Put (memstore.client false) "k" "b" [] (memstore.start {["k" := ""]})
     = (Returned
          ("",
           Some (ToSystem (Remote (memstore.already_exists "k"))
                   "c.api.PutParameterWithContext failed (k)")),
        mkWorld {["k" := ""]}
          [ReqGetParameter (mkGetParameterInput (Some "k") false);
           ReqPutParameter (put_input "k" "b" false)])
  /\ ~ (exists old w',
         Put (memstore.client false) "k" "b" []
           (memstore.start {["k" := ""]})
         = (Returned (old, None), w'))
  /\ ~ (exists res w',
         Put (memstore.client false) "k" "b" []
           (memstore.start {["k" := ""]})
         = (res, w')
         /\ remote w' !! "k" = Some "b").
Proof.
  split; [exact memstore_laws |].
  split; [reflexivity |]. split; [reflexivity |]. split.
  - intros (old & w' & Hput). vm_compute in Hput. discriminate Hput.
  - intros (res & w' & Hput & Hheld).
    assert (Hw : w' = snd (Put (memstore.client false) "k" "b" []
                             (memstore.start {["k" := ""]})))
      by (by rewrite Hput).
    subst w'. vm_compute in Hheld. discriminate Hheld.
Qed.

(** C3 at a concrete call.  [Param] with the empty key fails with an
    error of class System, not InvalidInput. *)
Lemma empty_argument_counterexample :
  fst (Param (memstore.client false) "" (memstore.start ∅))
  = Returned
      ("", Some (System "key is empty, a non empty key is required"))
  /\ ~ (exists r e,
         fst (Param (memstore.client false) "" (memstore.start ∅))
         = Returned (r, Some e)
         /\ class_of e = Some CInvalidInput).
Proof.
  split; [reflexivity |].
  intros (r & e & Hparam & Hclass).
  vm_compute in Hparam. injection Hparam as _ <-. discriminate Hclass.
Qed.

Lemma Param_classifies_remote_errors_witness :
  (exists err w',
      Param (memstore.client false) "k" (memstore.start ∅)
      = (Returned ("", Some err), w')
      /\ class_of err = Some CNotFound
      /\ (IsNotFound (Some err) = true <-> true = true))
  /\ (exists err w',
      Param (memstore.client false) "k" (memstore.start ∅)
      = (Returned ("", Some err), w')
      /\ class_of err = Some CNotFound).
Proof.
  split.
  - refine (proj1 (Param_classifies_remote_errors (memstore.client false)
                     "k" (memstore.start ∅) _)
              (memstore.not_found "k") ∅ _).
    + discriminate.
    + reflexivity.
  - refine (proj2 (Param_classifies_remote_errors (memstore.client false)
                     "k" (memstore.start ∅) _)
              (fun s => s) memstore_laws _).
    + discriminate.
    + reflexivity.
Defined.

Lemma Path_leading_separator_witness :
  fst (Path 4 (memstore.client false) "cfg" []
         (memstore.start {["/cfg/a" := "1"]}))
  = Returned ({["/cfg/a" := "1"]}, None)
  /\ Path 4 (memstore.client false) "cfg" []
       (memstore.start {["/cfg/a" := "1"]})
     = Path 4 (memstore.client false) "/cfg" []
         (memstore.start {["/cfg/a" := "1"]})
  /\ EnsurePathPrefix (memstore.client false) "cfg" = "/cfg"
  /\ EnsurePathPrefix (memstore.client false) "/cfg" = "/cfg"
  /\ exists new,
      calls (snd (Path 4 (memstore.client false) "cfg" []
                    (memstore.start {["/cfg/a" := "1"]})))
      = [] ++ new
      /\ Forall (fun q => request_path q = Some "/cfg") new.
Proof.
  split; [reflexivity |].
  refine (Path_leading_separator (memstore.client false) 4 "cfg" []
            (memstore.start {["/cfg/a" := "1"]}) _ _).
  - discriminate.
  - reflexivity.
Defined.

(* ===================================================================== *)
(** ** An error on a page *)
(* ===================================================================== *)

(** C2 at a concrete remote.  The remote answers the first request for a
    page with one parameter and a token, the second with an error, and
    would answer the third with the last page.  [Path] does not return
    the parameters of the pages that were answered: it panics on the page
    that was answered with an error, after two requests, whatever the
    bound on the number of pages is (from two on). *)
Theorem Path_panics_on_page_error (fuel : nat) :
  let page1 :=
    mkGetParametersByPathOutput
      [mkSSMParameter (Some "/cfg/a") (Some "1")] (Some "t1") in
  let page3 :=
    mkGetParametersByPathOutput
      [mkSSMParameter (Some "/cfg/b") (Some "2")] None in
  let w :=
    mkWorld
      [inr (Some page1);
       inl (APIFault "ThrottlingException" "rate exceeded");
       inr (Some page3)]
      [] in
  Path (2 + fuel) scripted.client "cfg" [] w
  = (Panicked nil_dereference,
     mkWorld [inr (Some page3)]
       [ReqGetParametersByPath
          (mkGetParametersByPathInput (Some "/cfg") false true None);
        ReqGetParametersByPath
          (mkGetParametersByPathInput (Some "/cfg") false true
             (Some "t1"))])
  /\ forall (m : gmap string string) (err : option error),
      fst (Path (2 + fuel) scripted.client "cfg" [] w) <> Returned (m, err).
Proof.
  split; [reflexivity | discriminate].
Qed.

(* ===================================================================== *)
(** ** Properties of [ToLambdaTrigger] *)
(* ===================================================================== *)

Section TriggerFacts.

Import sls.

(** What [strings.ToLower] does outside ASCII. *)
Variable u : string -> string.

(** The result of [ToLambdaTrigger] is decided by the lower-case form of
    its argument. *)
Lemma ToLambdaTrigger_cases (s : string) :
  (In (ToLower u s) registered /\ ToLambdaTrigger u s = (ToLower u s, None))
  \/ (~ In (ToLower u s) registered
      /\ ToLambdaTrigger u s
         = ("", Some "event trigger () is not registered")).
Proof.
  unfold sls.ToLambdaTrigger, LambdaTrigger_String.
  generalize (sls.ToLower u s). intros l.
  repeat match goal with
         | |- context [String.eqb l ?t] =>
             destruct (String.eqb_spec l t) as [-> | ?];
             [left; split; [simpl; tauto | reflexivity] |]
         end.
  right. split; [| reflexivity].
  simpl. unfold APIGWTrigger, DDBTrigger, DirectTrigger, CognitoTrigger,
    S3Trigger, SNSTrigger, SQSTrigger in *.
  intuition congruence.
Qed.

Lemma map_bytes_no_upper (s : string) :
  any_byte is_upper s = false -> map_bytes lower_byte s = s.
Proof.
  induction s as [| a s IH]; simpl; [reflexivity |].
  intros H. apply orb_false_iff in H as [Ha Hs].
  unfold lower_byte at 1. rewrite Ha. by rewrite IH.
Qed.

(** On a string of ASCII bytes [ToLower] lowers each byte. *)
Lemma ToLower_ascii (s : string) :
  all_bytes is_ascii s = true -> ToLower u s = map_bytes lower_byte s.
Proof.
  intros H. unfold sls.ToLower. rewrite H.
  destruct (any_byte is_upper s) eqn:Hup; simpl; [reflexivity |].
  symmetry. by apply map_bytes_no_upper.
Qed.

Lemma lower_byte_upper (a : ascii) :
  is_upper a = true ->
  lower_byte (ascii_of_nat (nat_of_ascii a + 32)) = lower_byte a.
Proof.
  destruct a as [[] [] [] [] [] [] [] []]; vm_compute;
    (discriminate || reflexivity).
Qed.

Lemma lower_byte_same_letter (a b : ascii) :
  same_letter a b = true -> lower_byte a = lower_byte b.
Proof.
  unfold same_letter. intros H.
  apply orb_true_iff in H as [H | H];
    [apply orb_true_iff in H as [H | H] |].
  - apply Ascii.eqb_eq in H. by subst.
  - apply andb_true_iff in H as [Hup Heq].
    apply Ascii.eqb_eq in Heq. subst b. symmetry. by apply lower_byte_upper.
  - apply andb_true_iff in H as [Hup Heq].
    apply Ascii.eqb_eq in Heq. subst a. by apply lower_byte_upper.
Qed.

Lemma map_bytes_same_up_to_case (s : string) :
  forall t : string,
    same_up_to_case s t = true ->
    map_bytes lower_byte s = map_bytes lower_byte t.
Proof.
  induction s as [| a s IH]; intros [| b t] H; simpl in *;
    try discriminate; [reflexivity |].
  apply andb_true_iff in H as [Hab Hst].
  by rewrite (lower_byte_same_letter a b Hab), (IH t Hst).
Qed.

(** C9.  [ToLambdaTrigger u s] succeeds exactly when the lower-case form of
    [s] is one of the seven registered triggers, and then returns that
    trigger; otherwise it returns an error and the empty trigger.  Two
    strings with the same lower-case form get the same result, and so do
    two ASCII strings that differ only in the case of their letters. *)
Theorem ToLambdaTrigger_case_insensitive_closed (s : string) :
  length registered = 7
  /\ NoDup registered
  /\ (In (ToLower u s) registered ->
      ToLambdaTrigger u s = (ToLower u s, None))
  /\ (~ In (ToLower u s) registered ->
      ToLambdaTrigger u s = ("", Some "event trigger () is not registered"))
  /\ (snd (ToLambdaTrigger u s) = None <-> In (ToLower u s) registered)
  /\ (forall s' : string,
      ToLower u s' = ToLower u s -> ToLambdaTrigger u s' = ToLambdaTrigger u s)
  /\ (forall s' : string,
      all_bytes is_ascii s = true ->
      all_bytes is_ascii s' = true ->
      same_up_to_case s s' = true ->
      ToLambdaTrigger u s' = ToLambdaTrigger u s).
Proof.
  assert (Hsame : forall s' : string,
             ToLower u s' = ToLower u s ->
             ToLambdaTrigger u s' = ToLambdaTrigger u s).
  { intros s' H. unfold sls.ToLambdaTrigger. by rewrite H. }
  split; [reflexivity |].
  split.
  { unfold registered, APIGWTrigger, DDBTrigger, DirectTrigger,
      CognitoTrigger, S3Trigger, SNSTrigger, SQSTrigger.
    apply NoDup_ListNoDup.
    repeat (constructor; [simpl; intuition discriminate |]). constructor. }
  destruct (ToLambdaTrigger_cases s) as [[Hin Heq] | [Hout Heq]].
  - split; [done |]. split; [done |]. split; [by rewrite Heq |].
    split; [exact Hsame |].
    intros s' Hs Hs' Hcase. apply Hsame.
    rewrite (ToLower_ascii s Hs), (ToLower_ascii s' Hs').
    symmetry. by apply map_bytes_same_up_to_case.
  - split; [done |]. split; [done |].
    split; [rewrite Heq; simpl; split; [discriminate | done] |].
    split; [exact Hsame |].
    intros s' Hs Hs' Hcase. apply Hsame.
    rewrite (ToLower_ascii s Hs), (ToLower_ascii s' Hs').
    symmetry. by apply map_bytes_same_up_to_case.
Qed.

End TriggerFacts.

Lemma ToLambdaTrigger_case_insensitive_closed_witness :
  sls.ToLambdaTrigger (fun s => s) "ApiGW" = ("apigw", None)
  /\ sls.ToLambdaTrigger (fun s => s) "APIGW"
     = sls.ToLambdaTrigger (fun s => s) "ApiGW"
  /\ sls.ToLambdaTrigger (fun s => s) "lambda"
     = ("", Some "event trigger () is not registered").
Proof.
  split; [| split].
  - refine (proj1 (proj2 (proj2
              (ToLambdaTrigger_case_insensitive_closed (fun s => s) "ApiGW")))
              _).
    simpl. tauto.
  - refine (proj2 (proj2 (proj2 (proj2 (proj2 (proj2
              (ToLambdaTrigger_case_insensitive_closed (fun s => s)
                 "ApiGW"))))))
              "APIGW" _ _ _); reflexivity.
  - refine (proj1 (proj2 (proj2 (proj2
              (ToLambdaTrigger_case_insensitive_closed (fun s => s) "lambda"))))
              _).
    simpl. intuition discriminate.
Defined.

(* ===================================================================== *)
(** ** More on the client against any remote *)
(* ===================================================================== *)

Section SingleKeyFacts.

Context {R : Type} (c : Client R).

(** *** How [Delete] and [Put] run after the read *)

Lemma Delete_after_read (key : string) (w : world R)
  (out : option GetParameterOutput) (s : R) :
  key <> "" ->
  GetParameter (api c) (get_input c key) (remote w) = (inr out, s) ->
  Delete c key w
  = (Returned
       (parameter_value out,
        match
          fst (DeleteParameter (api c) (mkDeleteParameterInput (Some key)) s)
        with
        | inl e =>
            Some (ToSystem (Remote e)
                    ("c.api.DeleteParameter failed (" ++ key ++ ")"))
        | inr _ => None
        end),
     mkWorld
       (snd (DeleteParameter (api c) (mkDeleteParameterInput (Some key)) s))
       (calls w
        ++ [ReqGetParameter (get_input c key);
            ReqDeleteParameter (mkDeleteParameterInput (Some key))])).
Proof.
  intros Hkey Hget.
  unfold Delete, mbind, M_bind, bind.
  rewrite (Param_value c key w out s Hkey Hget). simpl.
  unfold call. simpl.
  destruct (DeleteParameter (api c) (mkDeleteParameterInput (Some key)) s)
    as [[e | o] s']; simpl; rewrite <- app_assoc; reflexivity.
Qed.

Lemma Delete_after_read_error (key : string) (w : world R)
  (e : api_error) (s : R) :
  key <> "" ->
  GetParameter (api c) (get_input c key) (remote w) = (inl e, s) ->
  Delete c key w
  = (Returned
       ("",
        Some (Wrap
                (if As_ParameterNotFound e
                 then ToNotFound (Remote e)
                        ("c.api.GetParameter failed (" ++ key ++ ")")
                 else ToSystem (Remote e)
                        ("c.api.GetParameter failed (" ++ key ++ ")"))
                ("c.Param failed (" ++ key ++ ")"))),
     mkWorld s (calls w ++ [ReqGetParameter (get_input c key)])).
Proof.
  intros Hkey Hget.
  unfold Delete, mbind, M_bind, bind.
  rewrite (Param_error c key w e s Hkey Hget). reflexivity.
Qed.

(** What [Put] does once it has decided to write: one request, and the
    old value with the verdict of the remote. *)
Lemma Put_after_read (key value : string) (overwrite : list bool)
  (w : world R) (out : option GetParameterOutput) (s : R) :
  key <> "" ->
  GetParameter (api c) (get_input c key) (remote w) = (inr out, s) ->
  Put c key value overwrite w
  = if String.eqb (parameter_value out) value then
      (Returned (parameter_value out, None),
       mkWorld s (calls w ++ [ReqGetParameter (get_input c key)]))
    else if Bool.eqb (first_true overwrite) false
            && negb (String.eqb (parameter_value out) "") then
      (Returned
         (parameter_value out,
          Some (System ("param (" ++ key
                        ++ ") exists but overwrite is false"))),
       mkWorld s (calls w ++ [ReqGetParameter (get_input c key)]))
    else
      (Returned
         (parameter_value out,
          match
            fst (PutParameter (api c)
                   (put_input key value (first_true overwrite)) s)
          with
          | inl e =>
              Some (ToSystem (Remote e)
                      ("c.api.PutParameterWithContext failed ("
                       ++ key ++ ")"))
          | inr _ => None
          end),
       mkWorld
         (snd (PutParameter (api c)
                 (put_input key value (first_true overwrite)) s))
         (calls w
          ++ [ReqGetParameter (get_input c key);
              ReqPutParameter
                (put_input key value (first_true overwrite))])).
Proof.
  intros Hkey Hget.
  unfold Put, mbind, M_bind, bind.
  rewrite (Param_value c key w out s Hkey Hget).
  cbn [is_nil IsNotFound negb andb].
  destruct (String.eqb (parameter_value out) value); [reflexivity |].
  destruct (Bool.eqb (first_true overwrite) false
            && negb (String.eqb (parameter_value out) ""));
    [reflexivity |].
  unfold call. cbn [remote calls].
  destruct (PutParameter (api c)
              (put_input key value (first_true overwrite)) s)
    as [[e | o] s']; simpl; rewrite <- app_assoc; reflexivity.
Qed.

Lemma Put_after_read_error (key value : string) (overwrite : list bool)
  (w : world R) (e : api_error) (s : R) :
  key <> "" ->
  GetParameter (api c) (get_input c key) (remote w) = (inl e, s) ->
  Put c key value overwrite w
  = if As_ParameterNotFound e then
      (Returned
         ("",
          match
            fst (PutParameter (api c)
                   (put_input key value (first_true overwrite)) s)
          with
          | inl e' =>
              Some (ToSystem (Remote e')
                      ("c.api.PutParameterWithContext failed ("
                       ++ key ++ ")"))
          | inr _ => None
          end),
       mkWorld
         (snd (PutParameter (api c)
                 (put_input key value (first_true overwrite)) s))
         (calls w
          ++ [ReqGetParameter (get_input c key);
              ReqPutParameter
                (put_input key value (first_true overwrite))]))
    else
      (Returned
         ("",
          Some (Wrap
                  (ToSystem (Remote e)
                     ("c.api.GetParameter failed (" ++ key ++ ")"))
                  "c.Param failed")),
       mkWorld s (calls w ++ [ReqGetParameter (get_input c key)])).
Proof.
  intros Hkey Hget.
  unfold Put, mbind, M_bind, bind.
  rewrite (Param_error c key w e s Hkey Hget).
  destruct (As_ParameterNotFound e); simpl.
  - rewrite andb_false_r. simpl. unfold call. simpl.
    destruct (PutParameter (api c)
                (put_input key value (first_true overwrite)) s)
      as [[e' | o] s']; simpl; rewrite <- app_assoc; reflexivity.
  - reflexivity.
Qed.

End SingleKeyFacts.

Section SingleKeyProperties.

Context {R : Type} (c : Client R).

(** X1.  With an empty key, [Delete] and [Put] fail with a System error
    and send no request: the guard of [Param] stops them. *)
Theorem Delete_and_Put_reject_empty_key (value : string)
  (overwrite : list bool) (w : world R) :
  (exists e,
      Delete c "" w = (Returned ("", Some e), w)
      /\ class_of e = Some CSystem)
  /\ (exists e,
      Put c "" value overwrite w = (Returned ("", Some e), w)
      /\ class_of e = Some CSystem).
Proof.
  split; eexists; split; reflexivity.
Qed.

(** X2.  When the read of [key] fails, for whatever reason, [Delete] sends
    no delete: the read is its only request.  It returns the empty string
    and the error of the read, wrapped, with its class: NotFound when the
    remote reported "parameter not found", System otherwise. *)
Theorem Delete_stops_on_read_error (key : string) (w : world R)
  (e : api_error) (s : R) :
  key <> "" ->
  GetParameter (api c) (get_input c key) (remote w) = (inl e, s) ->
  exists err,
    Delete c key w
    = (Returned ("", Some err),
       mkWorld s (calls w ++ [ReqGetParameter (get_input c key)]))
    /\ class_of err
       = Some (if As_ParameterNotFound e then CNotFound else CSystem).
Proof.
  intros Hkey Hget. eexists. split.
  - apply (Delete_after_read_error c key w e s Hkey Hget).
  - by destruct (As_ParameterNotFound e).
Qed.

(** X3.  When the read succeeds and the remote then refuses the delete,
    [Delete] still returns the value that it read, together with a System
    error; the error is a System error even when the remote reported
    "parameter not found" for the delete. *)
Theorem Delete_refused_returns_value_and_System_error (key : string)
  (w : world R) (out : option GetParameterOutput) (s s' : R)
  (e : api_error) :
  key <> "" ->
  GetParameter (api c) (get_input c key) (remote w) = (inr out, s) ->
  DeleteParameter (api c) (mkDeleteParameterInput (Some key)) s
  = (inl e, s') ->
  exists err,
    Delete c key w
    = (Returned (parameter_value out, Some err),
       mkWorld s'
         (calls w
          ++ [ReqGetParameter (get_input c key);
              ReqDeleteParameter (mkDeleteParameterInput (Some key))]))
    /\ class_of err = Some CSystem
    /\ IsNotFound (Some err) = false.
Proof.
  intros Hkey Hget Hdel. eexists. split; [| split].
  - rewrite (Delete_after_read c key w out s Hkey Hget), Hdel. reflexivity.
  - reflexivity.
  - reflexivity.
Qed.

(** X4.  When the read of [key] fails with anything but "parameter not
    found", [Put] gives up: it sends no write, and returns the empty
    string with the error of the read, wrapped, of class System. *)
Theorem Put_stops_on_read_error (key value : string)
  (overwrite : list bool) (w : world R) (e : api_error) (s : R) :
  key <> "" ->
  GetParameter (api c) (get_input c key) (remote w) = (inl e, s) ->
  As_ParameterNotFound e = false ->
  exists err,
    Put c key value overwrite w
    = (Returned ("", Some err),
       mkWorld s (calls w ++ [ReqGetParameter (get_input c key)]))
    /\ class_of err = Some CSystem.
Proof.
  intros Hkey Hget Hother. eexists. split.
  - rewrite (Put_after_read_error c key value overwrite w e s Hkey Hget).
    rewrite Hother. reflexivity.
  - reflexivity.
Qed.

(** X5.  When [Put] sends its write and the remote refuses it, [Put]
    returns the old value (the empty string when the read reported
    "parameter not found") together with a System error.  [Put] sends the
    write after "parameter not found", and after a read of a different
    value when the overwrite flag is set or the value read is empty. *)
Theorem Put_refused_returns_old_value_and_System_error (key value : string)
  (overwrite : list bool) (w : world R) (s s' : R) (e : api_error) :
  key <> "" ->
  PutParameter (api c) (put_input key value (first_true overwrite)) s
  = (inl e, s') ->
  (forall e0 : api_error,
      GetParameter (api c) (get_input c key) (remote w) = (inl e0, s) ->
      As_ParameterNotFound e0 = true ->
      exists err,
        Put c key value overwrite w
        = (Returned ("", Some err),
           mkWorld s'
             (calls w
              ++ [ReqGetParameter (get_input c key);
                  ReqPutParameter
                    (put_input key value (first_true overwrite))]))
        /\ class_of err = Some CSystem)
  /\ (forall out : option GetParameterOutput,
      GetParameter (api c) (get_input c key) (remote w) = (inr out, s) ->
      parameter_value out <> value ->
      first_true overwrite = true \/ parameter_value out = "" ->
      exists err,
        Put c key value overwrite w
        = (Returned (parameter_value out, Some err),
           mkWorld s'
             (calls w
              ++ [ReqGetParameter (get_input c key);
                  ReqPutParameter
                    (put_input key value (first_true overwrite))]))
        /\ class_of err = Some CSystem).
Proof.
  intros Hkey Hput. split.
  - intros e0 Hget Hnf.
    rewrite (Put_after_read_error c key value overwrite w e0 s Hkey Hget).
    rewrite Hnf, Hput. eexists. split; reflexivity.
  - intros out Hget Hdiff Hallowed.
    rewrite (Put_after_read c key value overwrite w out s Hkey Hget).
    apply String.eqb_neq in Hdiff. rewrite Hdiff.
    replace (Bool.eqb (first_true overwrite) false
             && negb (String.eqb (parameter_value out) "")) with false.
    + rewrite Hput. eexists. split; reflexivity.
    + destruct Hallowed as [-> | ->]; [reflexivity |].
      simpl. by rewrite andb_false_r.
Qed.

(** X6.  Whatever the remote does, [Put] returns (it never panics); its
    error, if any, is a System error, never NotFound, Conflict or
    InvalidInput; and it sends nothing, or the read of [key], or the read
    followed by exactly one write of [value] under [key] that carries the
    overwrite flag of the call.  It never sends a delete. *)
Theorem Put_requests_and_errors (key value : string)
  (overwrite : list bool) (w : world R) :
  exists old err w',
    Put c key value overwrite w = (Returned (old, err), w')
    /\ (err = None \/ exists e, err = Some e /\ class_of e = Some CSystem)
    /\ (calls w' = calls w
        \/ calls w' = calls w ++ [ReqGetParameter (get_input c key)]
        \/ calls w'
           = calls w
             ++ [ReqGetParameter (get_input c key);
                 ReqPutParameter
                   (put_input key value (first_true overwrite))]).
Proof.
  destruct (String.eqb_spec key "") as [-> | Hkey].
  { eexists _, _, _. split; [reflexivity |]. split; [right | left]; eauto. }
  destruct (GetParameter (api c) (get_input c key) (remote w))
    as [[e | out] s] eqn:Hget.
  - rewrite (Put_after_read_error c key value overwrite w e s Hkey Hget).
    destruct (As_ParameterNotFound e).
    + destruct (PutParameter (api c)
                  (put_input key value (first_true overwrite)) s)
        as [[e' | o] s'];
        eexists _, _, _; (split; [reflexivity |]); simpl;
        (split; [| right; right; reflexivity]); eauto.
    + eexists _, _, _. split; [reflexivity |]. simpl.
      split; [right; eauto | right; left; reflexivity].
  - rewrite (Put_after_read c key value overwrite w out s Hkey Hget).
    destruct (String.eqb (parameter_value out) value).
    { eexists _, _, _. split; [reflexivity |]. simpl.
      split; [left; reflexivity | right; left; reflexivity]. }
    destruct (Bool.eqb (first_true overwrite) false
              && negb (String.eqb (parameter_value out) "")).
    { eexists _, _, _. split; [reflexivity |]. simpl.
      split; [right; eauto | right; left; reflexivity]. }
    destruct (PutParameter (api c)
                (put_input key value (first_true overwrite)) s)
      as [[e' | o] s'];
      eexists _, _, _; (split; [reflexivity |]); simpl;
      (split; [| right; right; reflexivity]); eauto.
Qed.

(** X7.  Whatever the remote does, [Delete] returns (it never panics); its
    error, if any, is a System or a NotFound error; and it sends nothing,
    or the read of [key], or the read followed by exactly one delete of
    [key].  It never sends a put. *)
Theorem Delete_requests_and_errors (key : string) (w : world R) :
  exists old err w',
    Delete c key w = (Returned (old, err), w')
    /\ (err = None
        \/ exists e,
            err = Some e
            /\ (class_of e = Some CSystem \/ class_of e = Some CNotFound))
    /\ (calls w' = calls w
        \/ calls w' = calls w ++ [ReqGetParameter (get_input c key)]
        \/ calls w'
           = calls w
             ++ [ReqGetParameter (get_input c key);
                 ReqDeleteParameter (mkDeleteParameterInput (Some key))]).
Proof.
  destruct (String.eqb_spec key "") as [-> | Hkey].
  { eexists _, _, _. split; [reflexivity |]. split; [right | left]; eauto. }
  destruct (GetParameter (api c) (get_input c key) (remote w))
    as [[e | out] s] eqn:Hget.
  - rewrite (Delete_after_read_error c key w e s Hkey Hget).
    eexists _, _, _. split; [reflexivity |]. simpl. split.
    + right. eexists. split; [reflexivity |].
      destruct (As_ParameterNotFound e); simpl; eauto.
    + right; left; reflexivity.
  - rewrite (Delete_after_read c key w out s Hkey Hget).
    destruct (DeleteParameter (api c) (mkDeleteParameterInput (Some key)) s)
      as [[e' | o] s'];
      eexists _, _, _; (split; [reflexivity |]); simpl;
      (split; [| right; right; reflexivity]); eauto.
Qed.

End SingleKeyProperties.

(* ===================================================================== *)
(** ** More on [Path] *)
(* ===================================================================== *)

Section PathFacts.

Import paging.

Context {R : Type} (c : Client R).

(** For a non-empty path, [Path] is its loop, started with the paginator
    for the normalized path, an empty result and no error. *)
Lemma Path_nonempty (fuel : nat) (path : string) (recursive : list bool)
  (w : world R) :
  path <> "" ->
  Path fuel c path recursive w
  = Path_loop fuel c (Path_pager c path recursive) ∅ [] w.
Proof.
  intros Hne. apply String.eqb_neq in Hne.
  unfold Path. rewrite Hne. reflexivity.
Qed.

(** One turn of the loop on a page that the remote serves. *)
Lemma Path_loop_page (fuel : nat) (pager : GetParametersByPathPaginator)
  (result : gmap string string) (errs : list error) (w : world R)
  (page : GetParametersByPathOutput) (s : R) :
  HasMorePages pager = true ->
  GetParametersByPath (api c) (page_request pager) (remote w)
  = (inr (Some page), s) ->
  Path_loop (S fuel) c pager result errs w
  = Path_loop fuel c (advance pager page)
      (store_parameters (GetParametersByPathOutput_Parameters page) result)
      errs
      (mkWorld s (calls w ++ [ReqGetParametersByPath (page_request pager)])).
Proof.
  intros Hmore Hpage. simpl. rewrite Hmore.
  unfold mbind, M_bind, bind, NextPage. rewrite Hmore. simpl.
  unfold mbind, M_bind, bind, call. rewrite Hpage. reflexivity.
Qed.

(** One turn of the loop on a reply without error and without output: the
    paginator reads the token through the [nil] pointer. *)
Lemma Path_loop_page_nil (fuel : nat) (pager : GetParametersByPathPaginator)
  (result : gmap string string) (errs : list error) (w : world R) (s : R) :
  HasMorePages pager = true ->
  GetParametersByPath (api c) (page_request pager) (remote w)
  = (inr None, s) ->
  Path_loop (S fuel) c pager result errs w
  = (Panicked nil_dereference,
     mkWorld s (calls w ++ [ReqGetParametersByPath (page_request pager)])).
Proof.
  intros Hmore Hpage. simpl. rewrite Hmore.
  unfold mbind, M_bind, bind, NextPage. rewrite Hmore. simpl.
  unfold mbind, M_bind, bind, call. rewrite Hpage. reflexivity.
Qed.

(** The loop on a run of pages that the remote serves. *)
Lemma Path_loop_serves (pages : list GetParametersByPathOutput) :
  forall (fuel : nat) (pager p' : GetParametersByPathPaginator)
         (result : gmap string string) (errs : list error)
         (w : world R) (s' : R),
    serves (api c) pager (remote w) pages p' s' ->
    Path_loop (length pages + fuel) c pager result errs w
    = Path_loop fuel c p' (collect_pages pages result) errs
        (mkWorld s' (calls w ++ page_requests pager pages)).
Proof.
  induction pages as [| page rest IH];
    intros fuel pager p' result errs w s' Hserves.
  - destruct Hserves as [-> ->]. simpl. rewrite app_nil_r.
    by destruct w.
  - destruct Hserves as (Hmore & s1 & Hpage & Hrest).
    change (length (page :: rest) + fuel) with (S (length rest + fuel)).
    rewrite (Path_loop_page _ pager result errs w page s1 Hmore Hpage).
    rewrite (IH fuel (advance pager page) p' _ errs
               (mkWorld s1
                  (calls w ++ [ReqGetParametersByPath (page_request pager)]))
               s' Hrest).
    simpl. by rewrite <- app_assoc.
Qed.

Lemma Path_loop_done (fuel : nat) (pager : GetParametersByPathPaginator)
  (result : gmap string string) (errs : list error) (w : world R) :
  HasMorePages pager = false ->
  Path_loop fuel c pager result errs w = (Returned (result, None), w).
Proof.
  intros Hdone. destruct fuel; simpl; by rewrite Hdone.
Qed.

Lemma Path_loop_no_error (fuel : nat) :
  forall (pager : GetParametersByPathPaginator)
         (result m : gmap string string) (errs : list error)
         (w w' : world R) (err : option error),
    Path_loop fuel c pager result errs w = (Returned (m, err), w') ->
    err = None.
Proof.
  induction fuel as [| fuel IH]; intros pager result m errs w w' err Hrun.
  - simpl in Hrun. destruct (HasMorePages pager); [discriminate |].
    unfold ret in Hrun. congruence.
  - destruct (HasMorePages pager) eqn:Hmore.
    + destruct (GetParametersByPath (api c) (page_request pager) (remote w))
        as [[e | [page |]] s] eqn:Hpage.
      * rewrite (Path_loop_page_error c fuel pager result errs w e s
                   Hmore Hpage) in Hrun. discriminate.
      * rewrite (Path_loop_page fuel pager result errs w page s
                   Hmore Hpage) in Hrun.
        eapply IH. exact Hrun.
      * rewrite (Path_loop_page_nil fuel pager result errs w s
                   Hmore Hpage) in Hrun. discriminate.
    + rewrite (Path_loop_done _ pager result errs w Hmore) in Hrun.
      congruence.
Qed.

(** The requests of the loop differ only in their token. *)
Lemma Path_loop_request_fields (fuel : nat) :
  forall (pager : GetParametersByPathPaginator)
         (result : gmap string string) (errs : list error) (w : world R),
    exists new,
      calls (snd (Path_loop fuel c pager result errs w)) = calls w ++ new
      /\ length new <= fuel
      /\ Forall
           (fun q =>
              exists token,
                q = ReqGetParametersByPath
                      (mkGetParametersByPathInput
                         (GetParametersByPathInput_Path (pager_params pager))
                         (GetParametersByPathInput_WithDecryption
                            (pager_params pager))
                         (GetParametersByPathInput_Recursive
                            (pager_params pager))
                         token))
           new.
Proof.
  induction fuel as [| fuel IH]; intros pager result errs w.
  - exists []. rewrite app_nil_r. split; [| split; [done | constructor]].
    simpl. by destruct (HasMorePages pager).
  - destruct (HasMorePages pager) eqn:Hmore.
    + destruct (GetParametersByPath (api c) (page_request pager) (remote w))
        as [[e | [page |]] s] eqn:Hpage.
      * rewrite (Path_loop_page_error c fuel pager result errs w e s
                   Hmore Hpage).
        exists [ReqGetParametersByPath (page_request pager)].
        split; [reflexivity |]. split; [simpl; lia |].
        repeat constructor. by eexists.
      * rewrite (Path_loop_page fuel pager result errs w page s
                   Hmore Hpage).
        match goal with
        | |- context [Path_loop fuel c ?p ?m ?l ?w'] =>
            destruct (IH p m l w') as (new & Hcalls & Hlen & Hall)
        end.
        exists (ReqGetParametersByPath (page_request pager) :: new).
        split; [| split].
        -- rewrite Hcalls. simpl. by rewrite <- app_assoc.
        -- simpl. lia.
        -- constructor; [by eexists | exact Hall].
      * rewrite (Path_loop_page_nil fuel pager result errs w s
                   Hmore Hpage).
        exists [ReqGetParametersByPath (page_request pager)].
        split; [reflexivity |]. split; [simpl; lia |].
        repeat constructor. by eexists.
    + rewrite (Path_loop_done _ pager result errs w Hmore).
      exists []. rewrite app_nil_r.
      split; [reflexivity | split; [simpl; lia | constructor]].
Qed.

(** X8.  [Path] on a non-empty path never hands an error to its caller:
    whenever it returns, the error is [nil], whatever the remote did. *)
Theorem Path_returns_no_error (fuel : nat) (path : string)
  (recursive : list bool) (w w' : world R) (m : gmap string string)
  (err : option error) :
  path <> "" ->
  Path fuel c path recursive w = (Returned (m, err), w') ->
  err = None.
Proof.
  intros Hne Hrun. rewrite (Path_nonempty fuel path recursive w Hne) in Hrun.
  eapply Path_loop_no_error. exact Hrun.
Qed.

(** After at least one page the paginator is past its first page. *)
Lemma serves_past_first_page (pages : list GetParametersByPathOutput) :
  forall (p p' : GetParametersByPathPaginator) (s s' : R),
    serves (api c) p s pages p' s' ->
    pages <> [] \/ pager_firstPage p = false ->
    pager_firstPage p' = false.
Proof.
  induction pages as [| page rest IH]; intros p p' s s' Hserves Hpast.
  - destruct Hserves as [-> _]. by destruct Hpast.
  - destruct Hserves as (_ & s1 & _ & Hrest).
    apply (IH (advance p page) p' s1 s' Hrest). by right.
Qed.

(** X9.  When the remote serves [pages], at least one, one after the
    other, each but the last with a non-empty token and the last with no
    token, [Path] returns after exactly these requests, for every bound
    of at least as many pages: the result holds the parameters of all the
    pages, a later page overriding an earlier one, and the error is
    [nil].  Each request carries the token of the page before. *)
Theorem Path_returns_all_pages (fuel : nat) (path : string)
  (recursive : list bool) (w : world R)
  (pages : list GetParametersByPathOutput)
  (p' : GetParametersByPathPaginator) (s' : R) :
  path <> "" ->
  pages <> [] ->
  serves (api c) (Path_pager c path recursive) (remote w) pages p' s' ->
  pager_nextToken p' = None ->
  Path (length pages + fuel) c path recursive w
  = (Returned (collect_pages pages ∅, None),
     mkWorld s'
       (calls w ++ page_requests (Path_pager c path recursive) pages)).
Proof.
  intros Hne Hpages Hserves Hlast.
  rewrite (Path_nonempty _ path recursive w Hne).
  rewrite (Path_loop_serves pages fuel _ p' ∅ [] w s' Hserves).
  apply Path_loop_done.
  assert (Hpast := serves_past_first_page pages _ p' _ s' Hserves
                     (or_introl Hpages)).
  unfold HasMorePages. by rewrite Hpast, Hlast.
Qed.

(** X10.  When the remote serves [pages] and then answers the request for
    the next page with an error, or with neither an error nor an output,
    [Path] panics with a [nil] dereference, for every bound that reaches
    that page: the parameters of the pages served are lost. *)
Theorem Path_panics_after_pages (fuel : nat) (path : string)
  (recursive : list bool) (w : world R)
  (pages : list GetParametersByPathOutput)
  (p' : GetParametersByPathPaginator) (s' s'' : R) :
  path <> "" ->
  serves (api c) (Path_pager c path recursive) (remote w) pages p' s' ->
  HasMorePages p' = true ->
  (exists e,
      GetParametersByPath (api c) (page_request p') s' = (inl e, s''))
  \/ GetParametersByPath (api c) (page_request p') s' = (inr None, s'') ->
  Path (length pages + S fuel) c path recursive w
  = (Panicked nil_dereference,
     mkWorld s''
       (calls w
        ++ page_requests (Path_pager c path recursive) pages
        ++ [ReqGetParametersByPath (page_request p')])).
Proof.
  intros Hne Hserves Hmore Hbad.
  rewrite (Path_nonempty _ path recursive w Hne).
  rewrite (Path_loop_serves pages (S fuel) _ p' ∅ [] w s' Hserves).
  destruct Hbad as [[e Hpage] | Hpage].
  - rewrite (Path_loop_page_error c fuel p' _ []
               (mkWorld s' _) e s'' Hmore Hpage).
    simpl. by rewrite <- app_assoc.
  - rewrite (Path_loop_page_nil fuel p' _ []
               (mkWorld s' _) s'' Hmore Hpage).
    simpl. by rewrite <- app_assoc.
Qed.

(** X11.  Whatever the remote does, [Path] on a non-empty path sends only
    requests for pages, at most as many as the bound; each asks for the
    normalized path, with the decryption flag of the client and with the
    recursive flag of the call (set unless the call says [false]); the
    requests differ only in their token. *)
Theorem Path_sends_only_page_requests (fuel : nat) (path : string)
  (recursive : list bool) (w : world R) :
  path <> "" ->
  exists new,
    calls (snd (Path fuel c path recursive w)) = calls w ++ new
    /\ length new <= fuel
    /\ Forall
         (fun q =>
            exists token,
              q = ReqGetParametersByPath
                    (mkGetParametersByPathInput
                       (Some (EnsurePathPrefix c path)) (IsEncrypted c)
                       (is_recursive recursive) token))
         new.
Proof.
  intros Hne. rewrite (Path_nonempty fuel path recursive w Hne).
  apply (Path_loop_request_fields fuel (Path_pager c path recursive)).
Qed.

End PathFacts.

(* ===================================================================== *)
(** ** More on [Collect] and on the maps that are returned *)
(* ===================================================================== *)

Section StoreParameters.

Import paging.

(** One turn of the loop over the parameters of a reply. *)
Lemma store_parameters_cons (p : SSMParameter) (ps : list SSMParameter)
  (m : gmap string string) :
  store_parameters (p :: ps) m
  = store_parameters ps
      match p_Name p, p_Value p with
      | Some n, Some v => <[n := v]> m
      | _, _ => m
      end.
Proof. reflexivity. Qed.

Lemma store_parameters_step_skips (k : string) (p : SSMParameter)
  (m : gmap string string) :
  skips k p ->
  match p_Name p, p_Value p with
  | Some n, Some v => <[n := v]> m
  | _, _ => m
  end !! k = m !! k.
Proof.
  intros [Hname | Hvalue].
  - destruct (p_Name p) as [n |], (p_Value p); try reflexivity.
    apply lookup_insert_ne. congruence.
  - rewrite Hvalue. by destruct (p_Name p).
Qed.

Lemma puts_or_skips (k : string) (p : SSMParameter) :
  (exists v, puts k v p) \/ skips k p.
Proof.
  unfold puts, skips.
  destruct (p_Name p) as [n |], (p_Value p) as [v |]; eauto;
    try (right; left; discriminate).
  destruct (decide (n = k)) as [-> | Hne]; [eauto |].
  right. left. congruence.
Qed.

Lemma puts_not_skips (k v : string) (p : SSMParameter) :
  puts k v p -> skips k p -> False.
Proof.
  intros [Hname Hvalue] [Hne | Hnil]; congruence.
Qed.

(** X12.  What a returned map holds under a key [k], when the loop over
    the parameters [ps] of a reply started from the map [m]: the value of
    the last parameter of [ps] that has the name [k] and a value; the
    parameters without a name or without a value are passed over; and
    when no parameter of [ps] puts a value under [k], what [m] held. *)
Theorem store_parameters_lookup (ps : list SSMParameter) :
  forall (m : gmap string string) (k v : string),
    store_parameters ps m !! k = Some v
    <-> (exists before p after,
            ps = before ++ p :: after
            /\ puts k v p
            /\ Forall (skips k) after)
        \/ (Forall (skips k) ps /\ m !! k = Some v).
Proof.
  induction ps as [| p rest IH]; intros m k v.
  - simpl. split.
    + intros H. right. split; [constructor | exact H].
    + intros [(before & q & after & Heq & _) | [_ H]]; [| exact H].
      by destruct before.
  - rewrite store_parameters_cons, IH. split.
    + intros [(before & q & after & -> & Hputs & Hskips) | [Hskips Hstep]].
      * left. exists (p :: before), q, after. done.
      * destruct (puts_or_skips k p) as [[v' Hputs] | Hskip].
        -- left. exists [], p, rest. split; [reflexivity |].
           split; [| exact Hskips].
           destruct Hputs as [Hname Hvalue].
           rewrite Hname, Hvalue, lookup_insert_eq in Hstep.
           injection Hstep as <-. by split.
        -- right. split; [by constructor |].
           by rewrite (store_parameters_step_skips k p m Hskip) in Hstep.
    + intros [(before & q & after & Heq & Hputs & Hskips) | [Hskips Hm]].
      * destruct before as [| p0 before]; simpl in Heq;
          injection Heq as -> ->.
        -- right. split; [exact Hskips |].
           destruct Hputs as [Hname Hvalue].
           rewrite Hname, Hvalue. apply lookup_insert_eq.
        -- left. by exists before, q, after.
      * apply Forall_cons in Hskips as [Hskip Hskips].
        right. split; [exact Hskips |].
        by rewrite (store_parameters_step_skips k p m Hskip).
Qed.

End StoreParameters.

Section CollectFacts.

Context {R : Type} (c : Client R).

Lemma fold_left_snoc_all (keys acc : list string) :
  fold_left (fun names k => names ++ [k]) keys acc = acc ++ keys.
Proof.
  revert acc. induction keys as [| k keys IH]; intros acc; simpl.
  - by rewrite app_nil_r.
  - rewrite IH. by rewrite <- app_assoc.
Qed.

Lemma fold_left_snoc_nonempty (l acc : list string) :
  fold_left
    (fun invalid i => if String.eqb i "" then invalid else invalid ++ [i])
    l acc
  = acc ++ List.filter (fun i => negb (String.eqb i "")) l.
Proof.
  revert acc. induction l as [| i l IH]; intros acc; simpl.
  - by rewrite app_nil_r.
  - rewrite IH. destruct (String.eqb i ""); simpl; [reflexivity |].
    by rewrite <- app_assoc.
Qed.

(** For at least one key, [Collect] sends one request for all the keys,
    in their order, and goes by the reply. *)
Lemma Collect_nonempty (keys : list string) (w : world R) :
  keys <> [] ->
  Collect c keys w
  = match
      GetParameters (api c) (mkGetParametersInput keys (IsEncrypted c))
        (remote w)
    with
    | (inl err, s) =>
        (Returned
           (None, [],
            Some (ToSystem (Remote err)
                    ("c.api.GetParametersWithContext failed ("
                     ++ format_keys keys ++ ")"))),
         mkWorld s
           (calls w
            ++ [ReqGetParameters
                  (mkGetParametersInput keys (IsEncrypted c))]))
    | (inr None, s) =>
        (Panicked nil_dereference,
         mkWorld s
           (calls w
            ++ [ReqGetParameters
                  (mkGetParametersInput keys (IsEncrypted c))]))
    | (inr (Some out), s) =>
        (Returned
           (Some (store_parameters (GetParametersOutput_Parameters out) ∅),
            List.filter (fun i => negb (String.eqb i ""))
              (GetParametersOutput_InvalidParameters out),
            None),
         mkWorld s
           (calls w
            ++ [ReqGetParameters
                  (mkGetParametersInput keys (IsEncrypted c))]))
    end.
Proof.
  intros Hkeys. unfold Collect.
  destruct keys as [| k keys]; [done |].
  cbn [length Nat.eqb].
  rewrite fold_left_snoc_all. cbn [app].
  unfold mbind, M_bind, bind, call.
  destruct (GetParameters (api c)
              (mkGetParametersInput (k :: keys) (IsEncrypted c)) (remote w))
    as [[err | [out |]] s]; try reflexivity.
  unfold ret. by rewrite fold_left_snoc_nonempty.
Qed.

(** X13.  When the remote answers the request of [Collect] with an error,
    [Collect] returns a [nil] map, no invalid keys and a System error;
    the error is a System error even when the remote reported "parameter
    not found". *)
Theorem Collect_remote_error_is_System (keys : list string) (w : world R)
  (e : api_error) (s : R) :
  keys <> [] ->
  GetParameters (api c) (mkGetParametersInput keys (IsEncrypted c))
    (remote w) = (inl e, s) ->
  exists err,
    Collect c keys w
    = (Returned (None, [], Some err),
       mkWorld s
         (calls w
          ++ [ReqGetParameters (mkGetParametersInput keys (IsEncrypted c))]))
    /\ class_of err = Some CSystem
    /\ IsNotFound (Some err) = false.
Proof.
  intros Hkeys Hget. rewrite (Collect_nonempty keys w Hkeys), Hget.
  eexists. split; [reflexivity | split; reflexivity].
Qed.

(** X14.  When the remote answers the request of [Collect] with an output,
    [Collect] returns, with no error, the map made of the parameters of
    the output and the invalid keys of the output, in their order,
    without the empty ones.  It has sent one request, which names the
    keys in the order of the call and carries the decryption flag of the
    client. *)
Theorem Collect_returns_parameters_and_invalid_keys (keys : list string)
  (w : world R) (out : GetParametersOutput) (s : R) :
  keys <> [] ->
  GetParameters (api c) (mkGetParametersInput keys (IsEncrypted c))
    (remote w) = (inr (Some out), s) ->
  Collect c keys w
  = (Returned
       (Some (store_parameters (GetParametersOutput_Parameters out) ∅),
        List.filter (fun i => negb (String.eqb i ""))
          (GetParametersOutput_InvalidParameters out),
        None),
     mkWorld s
       (calls w
        ++ [ReqGetParameters (mkGetParametersInput keys (IsEncrypted c))])).
Proof.
  intros Hkeys Hget. by rewrite (Collect_nonempty keys w Hkeys), Hget.
Qed.

(** X15.  When the remote answers the request of [Collect] with neither
    an error nor an output, [Collect] panics with a [nil] dereference. *)
Theorem Collect_panics_on_nil_output (keys : list string) (w : world R)
  (s : R) :
  keys <> [] ->
  GetParameters (api c) (mkGetParametersInput keys (IsEncrypted c))
    (remote w) = (inr None, s) ->
  Collect c keys w
  = (Panicked nil_dereference,
     mkWorld s
       (calls w
        ++ [ReqGetParameters (mkGetParametersInput keys (IsEncrypted c))])).
Proof.
  intros Hkeys Hget. by rewrite (Collect_nonempty keys w Hkeys), Hget.
Qed.

End CollectFacts.

(* ===================================================================== *)
(** ** How the operations compose against a lawful parameter service *)
(* ===================================================================== *)

Section Composition.

Context {R : Type} (c : Client R) (contents : R -> gmap string string).
Hypothesis laws : StoreLaws (api c) contents.

(** A read that succeeds shows what the store holds. *)
Lemma read_shows_held (key : string) (r s : R)
  (out : option GetParameterOutput) :
  GetParameter (api c) (get_input c key) r = (inr out, s) ->
  contents r !! key = Some (parameter_value out) /\ contents s = contents r.
Proof.
  intros Hget. unfold get_input in Hget.
  destruct (contents r !! key) as [v |] eqn:Hlookup.
  - destruct (get_held _ _ laws r key v (IsEncrypted c) Hlookup)
      as (out' & s' & Hget' & Hval & Hsame).
    rewrite Hget in Hget'. injection Hget' as -> ->. by rewrite Hval.
  - destruct (get_missing _ _ laws r key (IsEncrypted c) Hlookup)
      as (e & s' & Hget' & _). congruence.
Qed.

(** A read that fails shows that the store does not hold the key. *)
Lemma read_error_shows_missing (key : string) (r s : R) (e : api_error) :
  GetParameter (api c) (get_input c key) r = (inl e, s) ->
  contents r !! key = None
  /\ As_ParameterNotFound e = true
  /\ contents s = contents r.
Proof.
  intros Hget. unfold get_input in Hget.
  destruct (contents r !! key) as [v |] eqn:Hlookup.
  - destruct (get_held _ _ laws r key v (IsEncrypted c) Hlookup)
      as (out' & s' & Hget' & _). congruence.
  - destruct (get_missing _ _ laws r key (IsEncrypted c) Hlookup)
      as (e' & s' & Hget' & Hnf & Hsame).
    rewrite Hget in Hget'. injection Hget' as -> ->. done.
Qed.

(** What the store holds after a [Put] that returned no error. *)
Lemma Put_success_contents (key v old : string) (overwrite : list bool)
  (w w' : world R) :
  key <> "" ->
  Put c key v overwrite w = (Returned (old, None), w') ->
  contents (remote w') = <[key := v]> (contents (remote w))
  /\ (contents (remote w) !! key = Some old
      \/ contents (remote w) !! key = None /\ old = "").
Proof.
  intros Hkey Hput.
  destruct (GetParameter (api c) (get_input c key) (remote w))
    as [[e | out] s] eqn:Hget.
  - destruct (read_error_shows_missing key _ s e Hget)
      as (Hmissing & Hnf & Hsame).
    rewrite (Put_after_read_error c key v overwrite w e s Hkey Hget), Hnf
      in Hput.
    destruct (PutParameter (api c) (put_input key v (first_true overwrite)) s)
      as [[e' | o] s'] eqn:Hwrite; simpl in Hput; [discriminate |].
    injection Hput as <- <-. simpl. split; [| by right].
    rewrite (put_accepted _ _ laws _ _ _ _ _ _ Hwrite). by rewrite Hsame.
  - destruct (read_shows_held key _ s out Hget) as (Hheld & Hsame).
    rewrite (Put_after_read c key v overwrite w out s Hkey Hget) in Hput.
    destruct (String.eqb_spec (parameter_value out) v) as [Heq | Hdiff].
    { injection Hput as <- <-. simpl. split; [| by left].
      rewrite Hsame. symmetry. apply insert_id. by rewrite Hheld, Heq. }
    destruct (Bool.eqb (first_true overwrite) false
              && negb (String.eqb (parameter_value out) ""));
      [discriminate |].
    destruct (PutParameter (api c) (put_input key v (first_true overwrite)) s)
      as [[e' | o] s'] eqn:Hwrite; simpl in Hput; [discriminate |].
    injection Hput as <- <-. simpl. split; [| by left].
    rewrite (put_accepted _ _ laws _ _ _ _ _ _ Hwrite). by rewrite Hsame.
Qed.

(** What the store holds after a [Delete] that returned no error. *)
Lemma Delete_success_contents (key old : string) (w w' : world R) :
  key <> "" ->
  Delete c key w = (Returned (old, None), w') ->
  contents (remote w) !! key = Some old
  /\ contents (remote w') = delete key (contents (remote w)).
Proof.
  intros Hkey Hdel.
  destruct (GetParameter (api c) (get_input c key) (remote w))
    as [[e | out] s] eqn:Hget.
  - rewrite (Delete_after_read_error c key w e s Hkey Hget) in Hdel.
    discriminate.
  - destruct (read_shows_held key _ s out Hget) as (Hheld & Hsame).
    rewrite (Delete_after_read c key w out s Hkey Hget) in Hdel.
    assert (Hheld' : contents s !! key = Some (parameter_value out))
      by (by rewrite Hsame).
    destruct (delete_held _ _ laws s key _ Hheld')
      as (o & s' & Hdelete & Hgone).
    rewrite Hdelete in Hdel. simpl in Hdel.
    injection Hdel as <- <-. simpl. split; [exact Hheld |].
    by rewrite Hgone, Hsame.
Qed.

(** [Put] of the value that the store holds. *)
Lemma Put_held_value (key v : string) (overwrite : list bool) (w : world R) :
  key <> "" ->
  contents (remote w) !! key = Some v ->
  exists w',
    Put c key v overwrite w = (Returned (v, None), w')
    /\ calls w' = calls w ++ [ReqGetParameter (get_input c key)]
    /\ contents (remote w') = contents (remote w).
Proof.
  intros Hkey Hheld.
  destruct (get_held _ _ laws _ key v (IsEncrypted c) Hheld)
    as (out & s & Hget & Hval & Hsame).
  rewrite (Put_after_read c key v overwrite w out s Hkey Hget).
  rewrite Hval, String.eqb_refl. eauto.
Qed.

(** [Put] on a key that the store does not hold. *)
Lemma Put_missing_key (key v : string) (overwrite : list bool)
  (w : world R) :
  key <> "" ->
  contents (remote w) !! key = None ->
  exists w',
    Put c key v overwrite w = (Returned ("", None), w')
    /\ contents (remote w') = <[key := v]> (contents (remote w)).
Proof.
  intros Hkey Hmissing.
  destruct (get_missing _ _ laws _ key (IsEncrypted c) Hmissing)
    as (e & s & Hget & Hnf & Hsame).
  rewrite (Put_after_read_error c key v overwrite w e s Hkey Hget), Hnf.
  rewrite <- Hsame in Hmissing.
  destruct (put_new _ _ laws s key v (first_true overwrite) Hmissing)
    as (o & s' & Hwrite & Hnew).
  rewrite Hwrite. simpl. eexists. split; [reflexivity |].
  simpl. by rewrite Hnew, Hsame.
Qed.

(** [Delete] of a key that the store holds. *)
Lemma Delete_held_key (key v : string) (w : world R) :
  key <> "" ->
  contents (remote w) !! key = Some v ->
  exists w',
    Delete c key w = (Returned (v, None), w')
    /\ contents (remote w') = delete key (contents (remote w)).
Proof.
  intros Hkey Hheld.
  destruct (get_held _ _ laws _ key v (IsEncrypted c) Hheld)
    as (out & s & Hget & Hval & Hsame).
  rewrite (Delete_after_read c key w out s Hkey Hget).
  rewrite <- Hsame in Hheld.
  destruct (delete_held _ _ laws s key v Hheld) as (o & s' & Hdelete & Hgone).
  rewrite Hdelete, Hval. simpl. eexists. split; [reflexivity |].
  simpl. by rewrite Hgone, Hsame.
Qed.

(** X16.  When [Put] of [v] under [key] returns no error, whatever the
    flag and whatever the store held: the store holds [v] under [key] and
    holds under every other key what it held; the value returned is the
    one that the store held under [key], or the empty string when it held
    none; a read of [key] now gives [v]; and the same [Put] once more, with
    any flag, returns [v] and sends no write. *)
Theorem Put_success_then_read_and_repeat (key v old : string)
  (overwrite overwrite' : list bool) (w w' : world R) :
  key <> "" ->
  Put c key v overwrite w = (Returned (old, None), w') ->
  contents (remote w') = <[key := v]> (contents (remote w))
  /\ (contents (remote w) !! key = Some old
      \/ contents (remote w) !! key = None /\ old = "")
  /\ (exists w'', Param c key w' = (Returned (v, None), w''))
  /\ (exists w'',
        Put c key v overwrite' w' = (Returned (v, None), w'')
        /\ calls w'' = calls w' ++ [ReqGetParameter (get_input c key)]
        /\ contents (remote w'') = contents (remote w')).
Proof.
  intros Hkey Hput.
  destruct (Put_success_contents key v old overwrite w w' Hkey Hput)
    as (Hnew & Hold).
  assert (Hheld : contents (remote w') !! key = Some v).
  { rewrite Hnew. apply lookup_insert_eq. }
  split; [exact Hnew | split; [exact Hold | split]].
  - destruct (Param_held c contents laws key v w' Hkey Hheld)
      as (s & Hparam & _). eauto.
  - apply (Put_held_value key v overwrite' w' Hkey Hheld).
Qed.

(** X17.  When [Delete] of [key] returns no error: the value returned is
    the one that the store held under [key]; the store no longer holds
    [key] and holds under every other key what it held; a read of [key]
    and a second [Delete] now fail with a NotFound error; and a [Put] of
    the value returned brings the store back to what it was. *)
Theorem Delete_success_then_read_and_repeat (key old : string)
  (overwrite : list bool) (w w' : world R) :
  key <> "" ->
  Delete c key w = (Returned (old, None), w') ->
  contents (remote w) !! key = Some old
  /\ contents (remote w') = delete key (contents (remote w))
  /\ (exists e w'',
        Param c key w' = (Returned ("", Some e), w'')
        /\ class_of e = Some CNotFound)
  /\ (exists e w'',
        Delete c key w' = (Returned ("", Some e), w'')
        /\ class_of e = Some CNotFound
        /\ contents (remote w'') = contents (remote w'))
  /\ (exists w'',
        Put c key old overwrite w' = (Returned ("", None), w'')
        /\ contents (remote w'') = contents (remote w)).
Proof.
  intros Hkey Hdel.
  destruct (Delete_success_contents key old w w' Hkey Hdel)
    as (Hheld & Hgone).
  assert (Hmissing : contents (remote w') !! key = None).
  { rewrite Hgone. apply lookup_delete_eq. }
  split; [exact Hheld | split; [exact Hgone | split; [| split]]].
  - destruct (Param_missing c contents laws key w' Hkey Hmissing)
      as (e & s & Hparam & Hclass & _). eauto.
  - destruct (Param_missing c contents laws key w' Hkey Hmissing)
      as (e & s & Hparam & Hclass & Hsame).
    eexists _, _. split; [| split].
    + unfold Delete, mbind, M_bind, bind. rewrite Hparam. reflexivity.
    + exact Hclass.
    + exact Hsame.
  - destruct (Put_missing_key key old overwrite w' Hkey Hmissing)
      as (w'' & Hput & Hnew).
    exists w''. split; [exact Hput |].
    rewrite Hnew, Hgone. by apply insert_delete_id.
Qed.

(** X18.  [Put] of a value under a key that the store does not hold,
    followed by [Delete] of the key: the [Put] returns the empty string,
    the [Delete] returns the value that was put, both with no error, and
    the store holds again what it held before. *)
Theorem Put_then_Delete_restores (key v : string) (overwrite : list bool)
  (w : world R) :
  key <> "" ->
  contents (remote w) !! key = None ->
  exists w1 w2,
    Put c key v overwrite w = (Returned ("", None), w1)
    /\ Delete c key w1 = (Returned (v, None), w2)
    /\ contents (remote w2) = contents (remote w).
Proof.
  intros Hkey Hmissing.
  destruct (Put_missing_key key v overwrite w Hkey Hmissing)
    as (w1 & Hput & Hnew).
  assert (Hheld : contents (remote w1) !! key = Some v).
  { rewrite Hnew. apply lookup_insert_eq. }
  destruct (Delete_held_key key v w1 Hkey Hheld) as (w2 & Hdel & Hgone).
  exists w1, w2. split; [exact Hput | split; [exact Hdel |]].
  rewrite Hgone, Hnew. by apply delete_insert_id.
Qed.

End Composition.

(* ===================================================================== *)
(** ** More on paths and triggers *)
(* ===================================================================== *)

(** X19.  [EnsurePathPrefix] returns a path that begins with the
    separator; it returns a path that begins with the separator as it is,
    and puts one separator in front of any other path (the empty path
    becomes the separator alone); applying it twice is the same as
    applying it once. *)
Theorem EnsurePathPrefix_normalizes {R : Type} (c : Client R) (p : string) :
  String.prefix "/" (EnsurePathPrefix c p) = true
  /\ (String.prefix "/" p = true -> EnsurePathPrefix c p = p)
  /\ (String.prefix "/" p = false ->
      EnsurePathPrefix c p = ("/" ++ p)%string)
  /\ EnsurePathPrefix c (EnsurePathPrefix c p) = EnsurePathPrefix c p
  /\ EnsurePathPrefix c "" = "/".
Proof.
  assert (Hslash : forall q : string, String.prefix "/" ("/" ++ q) = true).
  { intros q. simpl. by destruct q. }
  assert (Hkeep : forall q : string,
             String.prefix "/" q = true -> EnsurePathPrefix c q = q).
  { intros q Hq. unfold EnsurePathPrefix. by rewrite Hq. }
  destruct (String.prefix "/" p) eqn:Hp.
  - rewrite (Hkeep p Hp). repeat split; try done. by apply Hkeep.
  - rewrite (EnsurePathPrefix_adds c p Hp).
    repeat split; try done; try apply Hslash.
    apply Hkeep, Hslash.
Qed.

Section MoreTriggerFacts.

Import sls.

(** What [strings.ToLower] does outside ASCII. *)
Variable u : string -> string.

(** X20.  [ToLambdaTrigger] and [String] go round: each of the seven
    triggers is read back from its own string, and is not empty; a
    trigger that [ToLambdaTrigger] returns with no error is one of the
    seven, and is read back from its own string; and the trigger returned
    is empty exactly when an error is returned with it. *)
Theorem ToLambdaTrigger_String_round_trip :
  (forall t : LambdaTrigger,
      In t registered ->
      ToLambdaTrigger u (LambdaTrigger_String t) = (t, None)
      /\ Empty t = false)
  /\ (forall (s : string) (t : LambdaTrigger),
      ToLambdaTrigger u s = (t, None) ->
      In t registered
      /\ ToLambdaTrigger u (LambdaTrigger_String t) = (t, None))
  /\ (forall s : string,
      Empty (fst (ToLambdaTrigger u s)) = true
      <-> snd (ToLambdaTrigger u s) <> None).
Proof.
  assert (Hback : forall t : LambdaTrigger,
             In t registered ->
             ToLambdaTrigger u (LambdaTrigger_String t) = (t, None)
             /\ Empty t = false).
  { intros t Hin. simpl in Hin.
    repeat (destruct Hin as [<- | Hin]; [split; reflexivity |]).
    destruct Hin. }
  split; [exact Hback | split].
  - intros s t Hrun.
    destruct (ToLambdaTrigger_cases u s) as [[Hin Heq] | [_ Heq]];
      rewrite Heq in Hrun; [| discriminate].
    injection Hrun as <-. split; [exact Hin |]. by apply Hback.
  - intros s.
    destruct (ToLambdaTrigger_cases u s) as [[Hin Heq] | [_ Heq]];
      rewrite Heq; simpl.
    + destruct (Hback _ Hin) as [_ Hne]. rewrite Hne. split; done.
    + split; done.
Qed.

End MoreTriggerFacts.

(* ===================================================================== *)
(** ** Lambdas and services *)
(* ===================================================================== *)

Section LambdaFacts.

Import sls.

Variable Prefix : Type.

(** The order in which a map is visited: any order that visits each entry
    once. *)
Variable range : forall V : Type, gmap string V -> list (string * V).
Hypothesis range_visits_each_entry_once :
  forall (V : Type) (m : gmap string V), range V m ≡ₚ map_to_list m.

Lemma range_NoDup (V : Type) (m : gmap string V) : NoDup (range V m).*1.
Proof.
  rewrite (range_visits_each_entry_once V m). apply NoDup_fst_map_to_list.
Qed.

(** Storing the entries of a list one after the other builds the map of
    the list. *)
Lemma fold_left_insert_pointers (l : list (string * string)) :
  fold_left
    (fun (data : gmap string (option string)) kv =>
       <[fst kv := Some (snd kv)]> data)
    l ∅
  = list_to_map (prod_map id Some <$> rev l).
Proof.
  rewrite <- fold_left_rev_right.
  induction (rev l) as [| [k v] l' IH]; [reflexivity |].
  simpl. by rewrite IH.
Qed.

Lemma ToAWSEnv_variables (l : Lambda Prefix) (h : heap) :
  Variables (ToAWSEnv range l h) = Some <$> deref h (Lambda_Env l).
Proof.
  unfold ToAWSEnv. simpl. rewrite fold_left_insert_pointers.
  set (m := deref h (Lambda_Env l)).
  rewrite <- (list_to_map_to_list (Some <$> m)).
  rewrite map_to_list_fmap.
  apply list_to_map_proper.
  - rewrite <- list_fmap_compose.
    replace (fst ∘ prod_map id Some) with (@fst string string)
      by reflexivity.
    rewrite <- Permutation_rev. apply range_NoDup.
  - rewrite <- Permutation_rev.
    by rewrite (range_visits_each_entry_once _ m).
Qed.

(** X21.  [ToAWSEnv] copies the environment of a lambda: the variables
    returned are the entries of the map of the lambda, each value behind
    a pointer that is not [nil], whatever the order in which the map is
    visited; a lambda with a [nil] map has no variables. *)
Theorem ToAWSEnv_copies_environment (l : Lambda Prefix) (h : heap) :
  Variables (ToAWSEnv range l h) = Some <$> deref h (Lambda_Env l)
  /\ (forall (k : string) (v : option string),
        Variables (ToAWSEnv range l h) !! k = Some v ->
        exists x, v = Some x /\ deref h (Lambda_Env l) !! k = Some x)
  /\ (Lambda_Env l = None -> Variables (ToAWSEnv range l h) = ∅).
Proof.
  assert (Hvars := ToAWSEnv_variables l h).
  split; [exact Hvars | split].
  - intros k v Hk. rewrite Hvars, lookup_fmap in Hk.
    destruct (deref h (Lambda_Env l) !! k) as [x |]; simpl in Hk;
      [| discriminate].
    injection Hk as <-. eauto.
  - intros Hnil. rewrite Hvars, Hnil. simpl. apply fmap_empty.
Qed.

(** X22.  [AddEnv] has a value receiver, yet it writes to the map that the
    lambda refers to, so every copy of the lambda sees the entry: after
    [AddEnv] on a lambda whose map is not [nil], [ToAWSEnv] of any lambda
    that refers to the same map has the new variable, and the other
    variables as before; the other maps of the heap are as before.  On a
    lambda whose map is [nil], [AddEnv] panics. *)
Theorem AddEnv_writes_shared_map (l l' : Lambda Prefix)
  (name value : string) (h : heap) :
  (forall p : positive,
      Lambda_Env l = Some p ->
      Lambda_Env l' = Some p ->
      exists h',
        AddEnv l name value h = (pstore.Returned tt, h')
        /\ Variables (ToAWSEnv range l' h')
           = <[name := Some value]> (Variables (ToAWSEnv range l' h))
        /\ Variables (ToAWSEnv range l' h') !! name
           = Some (Some value)
        /\ forall q : positive, q <> p -> h' !! q = h !! q)
  /\ (Lambda_Env l = None ->
      AddEnv l name value h
      = (pstore.Panicked nil_map_assignment, h)).
Proof.
  split.
  - intros p Hl Hl'. unfold AddEnv. rewrite Hl.
    eexists. split; [reflexivity |].
    assert (Hvars :
      Variables
        (ToAWSEnv range l'
           (<[p := <[name := value]> (deref h (Some p))]> h))
      = <[name := Some value]> (Variables (ToAWSEnv range l' h))).
    { rewrite !ToAWSEnv_variables, Hl'. unfold deref, heap in *.
      rewrite lookup_insert_eq. simpl. apply fmap_insert. }
    split; [exact Hvars | split].
    + rewrite Hvars. apply lookup_insert_eq.
    + intros q Hq. unfold heap in *. by apply lookup_insert_ne.
  - intros Hnil. unfold AddEnv. by rewrite Hnil.
Qed.

Lemma fold_left_snoc_fst {V : Type} (l : list (string * V))
  (acc : list string) :
  fold_left (fun names kv => names ++ [fst kv]) l acc = acc ++ l.*1.
Proof.
  revert acc. induction l as [| kv l IH]; intros acc; simpl.
  - by rewrite app_nil_r.
  - rewrite IH. by rewrite <- app_assoc.
Qed.

(** X23.  [FeatureNames] lists the names of the features of a service,
    each once, in the order in which the map is visited: a name is listed
    exactly when the service has a feature of that name, and there are as
    many names as features.  A service whose map of features is [nil],
    and a service just made by [NewService], have no names. *)
Theorem FeatureNames_lists_each_feature_once {API : Type}
  (s : Service Prefix API) :
  match Service_Features s with
  | None => FeatureNames range s = []
  | Some features =>
      NoDup (FeatureNames range s)
      /\ (forall n : string,
            n ∈ FeatureNames range s <-> is_Some (features !! n))
      /\ length (FeatureNames range s) = size features
  end
  /\ forall (name env : string) (layout : ServiceLayout) (a : API),
      FeatureNames range (NewService Prefix name env layout a) = [].
Proof.
  split.
  - unfold FeatureNames.
    destruct (Service_Features s) as [features |]; [| reflexivity].
    rewrite fold_left_snoc_fst. simpl.
    split; [apply range_NoDup | split].
    + intros n.
      rewrite (range_visits_each_entry_once _ features).
      rewrite list_elem_of_fmap. split.
      * intros ([k x] & -> & Hin). apply elem_of_map_to_list in Hin. eauto.
      * intros [x Hx]. exists (n, x). split; [reflexivity |].
        by apply elem_of_map_to_list.
    + rewrite length_fmap, (range_visits_each_entry_once _ features).
      apply length_map_to_list.
  - intros name env layout a. unfold FeatureNames, NewService. simpl.
    rewrite fold_left_snoc_fst. simpl.
    assert (Hnil : range (Lambda Prefix) ∅ = []).
    { apply Permutation_nil_r.
      by rewrite (range_visits_each_entry_once _ ∅), map_to_list_empty. }
    by rewrite Hnil.
Qed.

End LambdaFacts.

(* ===================================================================== *)
(** ** The further properties at concrete remotes *)
(* ===================================================================== *)

Lemma Delete_stops_on_read_error_witness :
  exists err,
    Delete (memstore.client false) "z" (memstore.start {["k" := "a"]})
    = (Returned ("", Some err),
       mkWorld {["k" := "a"]}
         [ReqGetParameter (mkGetParameterInput (Some "z") false)])
    /\ class_of err = Some CNotFound.
Proof.
  refine (Delete_stops_on_read_error (memstore.client false) "z"
            (memstore.start {["k" := "a"]}) (memstore.not_found "z")
            {["k" := "a"]} _ _).
  - discriminate.
  - reflexivity.
Defined.

Lemma Delete_refused_returns_value_and_System_error_witness :
  exists err,
    Delete readonly.client "k" (memstore.start {["k" := "a"]})
    = (Returned ("a", Some err),
       mkWorld {["k" := "a"]}
         [ReqGetParameter (mkGetParameterInput (Some "k") false);
          ReqDeleteParameter (mkDeleteParameterInput (Some "k"))])
    /\ class_of err = Some CSystem
    /\ IsNotFound (Some err) = false.
Proof.
  refine (Delete_refused_returns_value_and_System_error readonly.client "k"
            (memstore.start {["k" := "a"]})
            (Some (mkGetParameterOutput
                     (Some (mkSSMParameter (Some "k") (Some "a")))))
            {["k" := "a"]} {["k" := "a"]} readonly.denied _ _ _).
  - discriminate.
  - reflexivity.
  - reflexivity.
Defined.

Lemma Put_stops_on_read_error_witness :
  exists err,
    Put scripted.client "k" "b" [true] (mkWorld [] [])
    = (Returned ("", Some err),
       mkWorld [] [ReqGetParameter (mkGetParameterInput (Some "k") false)])
    /\ class_of err = Some CSystem.
Proof.
  refine (Put_stops_on_read_error scripted.client "k" "b" [true]
            (mkWorld [] []) (APIFault "Unexpected" "operation not scripted")
            [] _ _ _).
  - discriminate.
  - reflexivity.
  - reflexivity.
Defined.

Lemma Put_refused_returns_old_value_and_System_error_witness :
  (exists err,
      Put readonly.client "z" "b" [] (memstore.start {["k" := "a"]})
      = (Returned ("", Some err),
         mkWorld {["k" := "a"]}
           [ReqGetParameter (mkGetParameterInput (Some "z") false);
            ReqPutParameter (put_input "z" "b" false)])
      /\ class_of err = Some CSystem)
  /\ (exists err,
      Put readonly.client "k" "b" [true] (memstore.start {["k" := "a"]})
      = (Returned ("a", Some err),
         mkWorld {["k" := "a"]}
           [ReqGetParameter (mkGetParameterInput (Some "k") false);
            ReqPutParameter (put_input "k" "b" true)])
      /\ class_of err = Some CSystem).
Proof.
  split.
  - refine (proj1 (Put_refused_returns_old_value_and_System_error
                     readonly.client "z" "b" []
                     (memstore.start {["k" := "a"]})
                     {["k" := "a"]} {["k" := "a"]} readonly.denied _ _)
              (memstore.not_found "z") _ _).
    + discriminate.
    + reflexivity.
    + reflexivity.
    + reflexivity.
  - refine (proj2 (Put_refused_returns_old_value_and_System_error
                     readonly.client "k" "b" [true]
                     (memstore.start {["k" := "a"]})
                     {["k" := "a"]} {["k" := "a"]} readonly.denied _ _)
              (Some (mkGetParameterOutput
                       (Some (mkSSMParameter (Some "k") (Some "a")))))
              _ _ _).
    + discriminate.
    + reflexivity.
    + reflexivity.
    + discriminate.
    + left. reflexivity.
Defined.

Lemma Path_returns_no_error_witness :
  Path 4 (memstore.client false) "cfg" []
    (memstore.start {["/cfg/a" := "1"]})
  = (Returned ({["/cfg/a" := "1"]}, None),
     mkWorld {["/cfg/a" := "1"]}
       [ReqGetParametersByPath
          (mkGetParametersByPathInput (Some "/cfg") false true None)])
  /\ (None : option error) = None.
Proof.
  split; [reflexivity |].
  refine (Path_returns_no_error (memstore.client false) 4 "cfg" []
            (memstore.start {["/cfg/a" := "1"]})
            (mkWorld {["/cfg/a" := "1"]}
               [ReqGetParametersByPath
                  (mkGetParametersByPathInput (Some "/cfg") false true
                     None)])
            {["/cfg/a" := "1"]} None _ _).
  - discriminate.
  - reflexivity.
Defined.

Lemma Path_returns_all_pages_witness :
  let page1 :=
    mkGetParametersByPathOutput
      [mkSSMParameter (Some "/cfg/a") (Some "1");
       mkSSMParameter (Some "/cfg/b") (Some "2")] (Some "t1") in
  let page2 :=
    mkGetParametersByPathOutput
      [mkSSMParameter (Some "/cfg/b") (Some "3");
       mkSSMParameter None (Some "4")] None in
  Path 5 scripted.client "cfg" [false]
    (mkWorld [inr (Some page1); inr (Some page2)] [])
  = (Returned ({["/cfg/a" := "1"; "/cfg/b" := "3"]}, None),
     mkWorld []
       [ReqGetParametersByPath
          (mkGetParametersByPathInput (Some "/cfg") false false None);
        ReqGetParametersByPath
          (mkGetParametersByPathInput (Some "/cfg") false false
             (Some "t1"))]).
Proof.
  intros page1 page2.
  refine (Path_returns_all_pages scripted.client 3 "cfg" [false]
            (mkWorld [inr (Some page1); inr (Some page2)] [])
            [page1; page2]
            (paging.advance
               (paging.advance
                  (paging.Path_pager scripted.client "cfg" [false]) page1)
               page2)
            [] _ _ _ _).
  - discriminate.
  - discriminate.
  - simpl. split; [reflexivity |]. eexists. split; [reflexivity |].
    split; [reflexivity |]. eexists. split; [reflexivity |].
    split; reflexivity.
  - reflexivity.
Defined.

Lemma Path_panics_after_pages_witness :
  let page1 :=
    mkGetParametersByPathOutput
      [mkSSMParameter (Some "/cfg/a") (Some "1")] (Some "t1") in
  Path 5 scripted.client "cfg" []
    (mkWorld
       [inr (Some page1); inl (APIFault "ThrottlingException" "rate exceeded")]
       [])
  = (Panicked nil_dereference,
     mkWorld []
       [ReqGetParametersByPath
          (mkGetParametersByPathInput (Some "/cfg") false true None);
        ReqGetParametersByPath
          (mkGetParametersByPathInput (Some "/cfg") false true
             (Some "t1"))]).
Proof.
  intros page1.
  refine (Path_panics_after_pages scripted.client 3 "cfg" []
            (mkWorld
               [inr (Some page1);
                inl (APIFault "ThrottlingException" "rate exceeded")]
               [])
            [page1]
            (paging.advance (paging.Path_pager scripted.client "cfg" [])
               page1)
            [inl (APIFault "ThrottlingException" "rate exceeded")] []
            _ _ _ _).
  - discriminate.
  - simpl. split; [reflexivity |]. eexists. split; [reflexivity |].
    split; reflexivity.
  - reflexivity.
  - left. eexists. reflexivity.
Defined.

Lemma Path_sends_only_page_requests_witness :
  exists new,
    calls (snd (Path 4 (memstore.client true) "cfg" [false]
                  (memstore.start {["/cfg/a" := "1"]})))
    = [] ++ new
    /\ length new <= 4
    /\ Forall
         (fun q =>
            exists token,
              q = ReqGetParametersByPath
                    (mkGetParametersByPathInput (Some "/cfg") true false
                       token))
         new.
Proof.
  refine (Path_sends_only_page_requests (memstore.client true) 4 "cfg"
            [false] (memstore.start {["/cfg/a" := "1"]}) _).
  discriminate.
Defined.

Lemma Collect_remote_error_is_System_witness :
  exists err,
    Collect scripted.client ["a"; "b"] (mkWorld [] [])
    = (Returned (None, [], Some err),
       mkWorld []
         [ReqGetParameters (mkGetParametersInput ["a"; "b"] false)])
    /\ class_of err = Some CSystem
    /\ IsNotFound (Some err) = false.
Proof.
  refine (Collect_remote_error_is_System scripted.client ["a"; "b"]
            (mkWorld [] []) (APIFault "Unexpected" "operation not scripted")
            [] _ _).
  - discriminate.
  - reflexivity.
Defined.

Lemma Collect_returns_parameters_and_invalid_keys_witness :
  Collect (memstore.client true) ["k"; "z"; "j"]
    (memstore.start {["k" := "a"; "j" := "b"]})
  = (Returned (Some {["k" := "a"; "j" := "b"]}, ["z"], None),
     mkWorld {["k" := "a"; "j" := "b"]}
       [ReqGetParameters (mkGetParametersInput ["k"; "z"; "j"] true)]).
Proof.
  refine (Collect_returns_parameters_and_invalid_keys (memstore.client true)
            ["k"; "z"; "j"] (memstore.start {["k" := "a"; "j" := "b"]})
            (mkGetParametersOutput
               [mkSSMParameter (Some "k") (Some "a");
                mkSSMParameter (Some "j") (Some "b")]
               ["z"])
            {["k" := "a"; "j" := "b"]} _ _).
  - discriminate.
  - reflexivity.
Defined.

Lemma Collect_panics_on_nil_output_witness :
  Collect silent.client ["k"] (mkWorld tt [])
  = (Panicked nil_dereference,
     mkWorld tt [ReqGetParameters (mkGetParametersInput ["k"] false)]).
Proof.
  refine (Collect_panics_on_nil_output silent.client ["k"] (mkWorld tt [])
            tt _ _).
  - discriminate.
  - reflexivity.
Defined.

Lemma Put_success_then_read_and_repeat_witness :
  let w' :=
    mkWorld ({["k" := "b"]} : gmap string string)
      [ReqGetParameter (mkGetParameterInput (Some "k") false);
       ReqPutParameter (put_input "k" "b" true)] in
  remote w' = <["k" := "b"]> {["k" := "a"]}
  /\ (({["k" := "a"]} : gmap string string) !! "k" = Some "a"
      \/ ({["k" := "a"]} : gmap string string) !! "k" = None /\ "a" = "")
  /\ (exists w'',
        Param (memstore.client false) "k" w' = (Returned ("b", None), w''))
  /\ (exists w'',
        Put (memstore.client false) "k" "b" [] w'
        = (Returned ("b", None), w'')
        /\ calls w''
           = calls w'
             ++ [ReqGetParameter (mkGetParameterInput (Some "k") false)]
        /\ remote w'' = remote w').
Proof.
  intros w'.
  refine (Put_success_then_read_and_repeat (memstore.client false)
            (fun s => s) memstore_laws "k" "b" "a" [true] []
            (memstore.start {["k" := "a"]}) w' _ _).
  - discriminate.
  - reflexivity.
Defined.

Lemma Delete_success_then_read_and_repeat_witness :
  let w' :=
    mkWorld (∅ : gmap string string)
      [ReqGetParameter (mkGetParameterInput (Some "k") false);
       ReqDeleteParameter (mkDeleteParameterInput (Some "k"))] in
  ({["k" := "a"]} : gmap string string) !! "k" = Some "a"
  /\ remote w' = delete "k" {["k" := "a"]}
  /\ (exists e w'',
        Param (memstore.client false) "k" w' = (Returned ("", Some e), w'')
        /\ class_of e = Some CNotFound)
  /\ (exists e w'',
        Delete (memstore.client false) "k" w' = (Returned ("", Some e), w'')
        /\ class_of e = Some CNotFound
        /\ remote w'' = remote w')
  /\ (exists w'',
        Put (memstore.client false) "k" "a" [] w'
        = (Returned ("", None), w'')
        /\ remote w'' = {["k" := "a"]}).
Proof.
  intros w'.
  refine (Delete_success_then_read_and_repeat (memstore.client false)
            (fun s => s) memstore_laws "k" "a" []
            (memstore.start {["k" := "a"]}) w' _ _).
  - discriminate.
  - reflexivity.
Defined.

Lemma Put_then_Delete_restores_witness :
  exists w1 w2,
    Put (memstore.client false) "z" "b" [] (memstore.start {["k" := "a"]})
    = (Returned ("", None), w1)
    /\ Delete (memstore.client false) "z" w1 = (Returned ("b", None), w2)
    /\ remote w2 = {["k" := "a"]}.
Proof.
  refine (Put_then_Delete_restores (memstore.client false) (fun s => s)
            memstore_laws "z" "b" [] (memstore.start {["k" := "a"]}) _ _).
  - discriminate.
  - reflexivity.
Defined.

(** Visiting a map in the order of [map_to_list] visits each entry
    once. *)
Lemma map_to_list_visits_each_entry_once (V : Type) (m : gmap string V) :
  map_to_list m ≡ₚ map_to_list m.
Proof. reflexivity. Qed.

Lemma ToAWSEnv_copies_environment_witness :
  let l :=
    sls.mkLambda tt "svc" sls.SQSTrigger "work" "" "" (Some 1%positive) in
  let h : sls.heap := {[1%positive := {["A" := "1"; "B" := ""]}]} in
  let range := fun (V : Type) (m : gmap string V) => map_to_list m in
  sls.Variables (sls.ToAWSEnv range l h)
  = {["A" := Some "1"; "B" := Some ""]}.
Proof.
  intros l h range.
  refine (proj1 (ToAWSEnv_copies_environment unit range
                   map_to_list_visits_each_entry_once l h)).
Defined.

Lemma AddEnv_writes_shared_map_witness :
  let l :=
    sls.mkLambda tt "svc" sls.SQSTrigger "work" "" "" (Some 1%positive) in
  let l' :=
    sls.mkLambda tt "svc" sls.SNSTrigger "copy" "" "" (Some 1%positive) in
  let h : sls.heap := {[1%positive := {["A" := "1"]}]} in
  let range := fun (V : Type) (m : gmap string V) => map_to_list m in
  exists h',
    sls.AddEnv l "B" "2" h = (Returned tt, h')
    /\ sls.Variables (sls.ToAWSEnv range l' h')
       = <["B" := Some "2"]> (sls.Variables (sls.ToAWSEnv range l' h))
    /\ sls.Variables (sls.ToAWSEnv range l' h') !! "B" = Some (Some "2")
    /\ forall q : positive, q <> 1%positive -> h' !! q = h !! q.
Proof.
  intros l l' h range.
  refine (proj1 (AddEnv_writes_shared_map unit range
                   map_to_list_visits_each_entry_once l l' "B" "2" h)
            1%positive _ _); reflexivity.
Defined.

Lemma FeatureNames_lists_each_feature_once_witness :
  let range := fun (V : Type) (m : gmap string V) => map_to_list m in
  let l := sls.mkLambda tt "svc" sls.SQSTrigger "work" "" "" None in
  let s :=
    @sls.mkService unit unit
      (sls.mkServiceLayout "/r" "app" "lambdas" "build")
      "svc" "dev" tt (Some {["work" := l]}) in
  (NoDup (sls.FeatureNames range s)
   /\ (forall n : string,
         n ∈ sls.FeatureNames range s
         <-> is_Some (({["work" := l]} : gmap string (sls.Lambda unit)) !! n))
   /\ length (sls.FeatureNames range s) = 1)
  /\ forall (name env : string) (layout : sls.ServiceLayout) (a : unit),
      sls.FeatureNames range (sls.NewService unit name env layout a) = [].
Proof.
  intros range l s.
  refine (FeatureNames_lists_each_feature_once unit range
            map_to_list_visits_each_entry_once s).
Defined.
